(** * Sidecar: tiered session watcher and agent-status classifiers

    A shallow embedding of
    - the tiered watcher (package [tieredwatcher]): session registry, bounded
      hot list, promotion, demotion and the debounced notification consumer;
    - the bounded metadata cache and the per-format status classifiers of
      [internal/plugins/workspace/agent_session.go].

    Conventions.  A Go [time.Time] is a [Z] counting nanoseconds from the zero
    [time.Time], so that the zero value of the type is [0] and [Before],
    [After] and [Equal] are [<], [>] and [=].  A [time.Duration] is a [Z] in
    nanoseconds.  In the watcher every reading of the clock ([time.Now]) and
    every outcome of a call into the operating system ([os.Stat],
    [watcher.Add]) is an explicit argument of the function that performs it;
    a classifier runs against one snapshot of the file system and one
    reading of the clock. *)

From stdpp Require Import gmap strings list fin_maps sorting.
From Stdlib Require Import ZArith Lia Ascii.

Set Default Proof Using "Type".

Local Open Scope string_scope.
Local Open Scope list_scope.
Local Open Scope Z_scope.

Definition Time := Z.
Definition Duration := Z.

Definition Millisecond : Duration := 1000000.
Definition Second : Duration := 1000 * Millisecond.
Definition Minute : Duration := 60 * Second.

(** ** The tiered watcher *)

Module TieredWatcher.

(** [MaxHotSessions] is the maximum number of sessions in the HOT tier. *)
Definition MaxHotSessions : nat := 3.
Definition ColdPollInterval : Duration := 30 * Second.
Definition HotInactivityTimeout : Duration := 5 * Minute.

Record SessionInfo := mkSessionInfo {
  ID : string;
  Path : string;
  ModTime : Time;
  LastHot : Time;
  FileSize : Z
}.

#[export] Instance SessionInfo_eq_dec : EqDecision SessionInfo.
Proof. solve_decision. Defined.

Definition setLastHot (t : Time) (s : SessionInfo) : SessionInfo :=
  mkSessionInfo (ID s) (Path s) (ModTime s) t (FileSize s).

Definition setStat (mt : Time) (sz : Z) (s : SessionInfo) : SessionInfo :=
  mkSessionInfo (ID s) (Path s) mt (LastHot s) sz.

(** [adapter.Event]. *)
Inductive EventType := EventSessionCreated | EventMessageAdded | EventSessionUpdated.

Record Event := mkEvent { Type_ : EventType; SessionID : string }.

#[export] Instance EventType_eq_dec : EqDecision EventType.
Proof. solve_decision. Defined.

#[export] Instance Event_eq_dec : EqDecision Event.
Proof. solve_decision. Defined.

(** The state guarded by [tw.mu], the buffered [events] channel (its content,
    oldest first) and the configuration.  [watchDirs] is a [map[string]bool]
    that only ever stores [true]: a set. *)
Record TieredWatcher := mkTW {
  sessions : gmap string SessionInfo;
  hotIDs : list string;
  watchDirs : gset string;
  events : list Event;
  closed : bool;
  rootDir : string;
  filePattern : string;
  extractID : string → string
}.

Definition setSessions (m : gmap string SessionInfo) (tw : TieredWatcher) :=
  mkTW m (hotIDs tw) (watchDirs tw) (events tw) (closed tw)
       (rootDir tw) (filePattern tw) (extractID tw).

Definition setHotIDs (h : list string) (tw : TieredWatcher) :=
  mkTW (sessions tw) h (watchDirs tw) (events tw) (closed tw)
       (rootDir tw) (filePattern tw) (extractID tw).

Definition setWatchDirs (d : gset string) (tw : TieredWatcher) :=
  mkTW (sessions tw) (hotIDs tw) d (events tw) (closed tw)
       (rootDir tw) (filePattern tw) (extractID tw).

Definition setEvents (q : list Event) (tw : TieredWatcher) :=
  mkTW (sessions tw) (hotIDs tw) (watchDirs tw) q (closed tw)
       (rootDir tw) (filePattern tw) (extractID tw).

(** Capacity of the [events] channel made by [New]. *)
Definition eventsCap : nat := 32.

(** [select { case tw.events <- e: default: }]: enqueue unless full. *)
Definition trySend (e : Event) (tw : TieredWatcher) : TieredWatcher :=
  if decide (length (events tw) < eventsCap)%nat
  then setEvents (events tw ++ [e]) tw
  else tw.

(** The watcher as [New] leaves it when the root directory could be added. *)
Definition New (root pattern : string) (extract : string → string) : TieredWatcher :=
  mkTW ∅ [] {[ root ]} [] false root pattern extract.

Section Operations.

(** [filepath.Dir], a function of the standard library. *)
Variable filepath_Dir : string → string.

(** Watch the session's directory if not already watched.  [addOK dir] tells
    whether [tw.watcher.Add(dir)] returns a nil error. *)
Definition watchSessionDir (addOK : string → bool) (info : SessionInfo)
    (tw : TieredWatcher) : TieredWatcher :=
  let dir := filepath_Dir (Path info) in
  if decide (dir ∈ watchDirs tw) then tw
  else if addOK dir then setWatchDirs ({[ dir ]} ∪ watchDirs tw) tw
  else tw.

(** The loop of [demoteOldestLocked]: [i] is the index of the head of [ids]
    in [tw.hotIDs]. *)
Fixpoint findOldest (m : gmap string SessionInfo) (ids : list string) (i : nat)
    (oldestIdx : nat) (oldestTime : Time) : nat :=
  match ids with
  | [] => oldestIdx
  | id :: rest =>
      match m !! id with
      | Some info =>
          if LastHot info <? oldestTime
          then findOldest m rest (S i) i (LastHot info)
          else findOldest m rest (S i) oldestIdx oldestTime
      | None => findOldest m rest (S i) oldestIdx oldestTime
      end
  end.

(** [demoteOldestLocked]; [now] is its reading of the clock. *)
Definition demoteOldestLocked (now : Time) (tw : TieredWatcher) : TieredWatcher :=
  match hotIDs tw with
  | [] => tw
  | _ =>
      let oldestIdx := findOldest (sessions tw) (hotIDs tw) 0 0 now in
      setHotIDs (take oldestIdx (hotIDs tw) ++ drop (S oldestIdx) (hotIDs tw)) tw
  end.

(** [PromoteToHot]; [now] is the reading stored in [LastHot], [now'] the later
    reading made by [demoteOldestLocked]. *)
Definition PromoteToHot (now now' : Time) (addOK : string → bool)
    (sessionID : string) (tw : TieredWatcher) : TieredWatcher :=
  match sessions tw !! sessionID with
  | None => tw
  | Some info =>
      let info := setLastHot now info in
      let tw := setSessions (<[sessionID := info]> (sessions tw)) tw in
      if decide (sessionID ∈ hotIDs tw) then tw
      else
        let tw := setHotIDs (hotIDs tw ++ [sessionID]) tw in
        let tw :=
          if decide (MaxHotSessions < length (hotIDs tw))%nat
          then demoteOldestLocked now' tw else tw in
        watchSessionDir addOK info tw
  end.

(** [RegisterSession]; [stat] is the outcome of [os.Stat(path)]: modification
    time and size, or [None] on error. *)
Definition RegisterSession (stat : option (Time * Z)) (id path : string)
    (tw : TieredWatcher) : TieredWatcher :=
  match sessions tw !! id with
  | Some _ => tw
  | None =>
      let info :=
        match stat with
        | Some (mt, sz) => mkSessionInfo id path mt 0 sz
        | None => mkSessionInfo id path 0 0 0
        end in
      setSessions (<[id := info]> (sessions tw)) tw
  end.

(** The registration loop of [RegisterSessions]. *)
Definition registerAll (batch : list SessionInfo)
    (m : gmap string SessionInfo) : gmap string SessionInfo :=
  foldl (λ m s,
           match m !! ID s with
           | Some _ => m
           | None => <[ID s := mkSessionInfo (ID s) (Path s) (ModTime s) 0 (FileSize s)]> m
           end) m batch.

(** The local type [sessionTime] of [autoPromoteRecentLocked]. *)
Record sessionTime := mkSessionTime { st_id : string; st_modTime : Time }.

(** The slice handed to [sort.Slice], in the order this model enumerates the
    map.  Go leaves the iteration order of a map unspecified. *)
Definition sessionTimes (m : gmap string SessionInfo) : list sessionTime :=
  (λ kv, mkSessionTime kv.1 (ModTime kv.2)) <$> map_to_list m.


(** One such result: insertion sort, most recent first. *)
Fixpoint insertByModTime (x : sessionTime) (l : list sessionTime) : list sessionTime :=
  match l with
  | [] => [x]
  | y :: l' =>
      if st_modTime y <? st_modTime x then x :: l
      else y :: insertByModTime x l'
  end.

Definition sortSlice (l : list sessionTime) : list sessionTime :=
  foldr insertByModTime [] l.

(** The promotion loop of [autoPromoteRecentLocked] over [sorted[i:]], for
    [i < MaxHotSessions && i < len(sorted)]; [nows i] is the clock reading of
    iteration [i]. *)
Fixpoint promoteTop (fuel : nat) (i : nat) (sorted : list sessionTime)
    (nows : nat → Time) (addOK : string → bool) (tw : TieredWatcher) : TieredWatcher :=
  match fuel, sorted with
  | S fuel, s :: rest =>
      match sessions tw !! st_id s with
      | None => tw (* unreachable: [sorted] lists the keys of the map *)
      | Some info =>
          let info := setLastHot (nows i) info in
          let tw := setSessions (<[st_id s := info]> (sessions tw)) tw in
          let tw :=
            if decide (st_id s ∈ hotIDs tw) then tw
            else setHotIDs (hotIDs tw ++ [st_id s]) tw in
          let tw := watchSessionDir addOK info tw in
          promoteTop fuel (S i) rest nows addOK tw
      end
  | _, _ => tw
  end.

(** [autoPromoteRecentLocked], given the slice [sorted] left by [sort.Slice]. *)
Definition autoPromoteRecentLocked (sorted : list sessionTime)
    (nows : nat → Time) (addOK : string → bool) (tw : TieredWatcher) : TieredWatcher :=
  if decide (size (sessions tw) = 0%nat) then tw
  else promoteTop MaxHotSessions 0 sorted nows addOK tw.

(** [RegisterSessions], given the outcome [sorted] of the sort. *)
Definition RegisterSessionsWith (sorted : list sessionTime) (nows : nat → Time)
    (addOK : string → bool) (batch : list SessionInfo)
    (tw : TieredWatcher) : TieredWatcher :=
  autoPromoteRecentLocked sorted nows addOK
    (setSessions (registerAll batch (sessions tw)) tw).

(** [RegisterSessions] with the sort resolved by [sortSlice]. *)
Definition RegisterSessions (nows : nat → Time) (addOK : string → bool)
    (batch : list SessionInfo) (tw : TieredWatcher) : TieredWatcher :=
  RegisterSessionsWith
    (sortSlice (sessionTimes (registerAll batch (sessions tw))))
    nows addOK batch tw.

(** The test [info, ok := tw.sessions[id]; ok && info.LastHot.After(cutoff)]. *)
Definition keptHot (m : gmap string SessionInfo) (cutoff : Time) (id : string) : bool :=
  match m !! id with
  | Some info => bool_decide (cutoff < LastHot info)
  | None => false
  end.

(** [demoteInactive]; [now] is its reading of the clock. *)
Definition demoteInactive (now : Time) (tw : TieredWatcher) : TieredWatcher :=
  let cutoff := now - HotInactivityTimeout in
  setHotIDs (filter (λ id, keptHot (sessions tw) cutoff id) (hotIDs tw)) tw.

(** [Stats]: Go's [int] subtraction, which may go negative. *)
Definition Stats (tw : TieredWatcher) : Z * Z * Z :=
  (Z.of_nat (length (hotIDs tw)),
   Z.of_nat (size (sessions tw)) - Z.of_nat (length (hotIDs tw)),
   Z.of_nat (size (watchDirs tw))).

(** [Manager]: one watcher per adapter ID and the merged channel.  Watchers
    are held by value: no watcher is registered under two adapter IDs. *)
Record Manager := mkManager {
  watchers : gmap string TieredWatcher;
  m_events : list Event;
  m_closed : bool
}.

Definition NewManager : Manager := mkManager ∅ [] false.

(** [AddWatcher] (the forwarding goroutine is not part of the state). *)
Definition AddWatcher (adapterID : string) (tw : TieredWatcher) (m : Manager) : Manager :=
  if m_closed m then m
  else mkManager (<[adapterID := tw]> (watchers m)) (m_events m) (m_closed m).

(** [Manager.PromoteSession]: [PromoteToHot] on every owned watcher.  The
    clock readings and watch outcomes of the call on the watcher of adapter
    [k] are [nows k] and [addOK k]. *)
Definition PromoteSession (nows : string → Time * Time)
    (addOK : string → string → bool) (sessionID : string) (m : Manager) : Manager :=
  mkManager
    (map_imap (λ k tw, Some (PromoteToHot (nows k).1 (nows k).2 (addOK k) sessionID tw))
              (watchers m))
    (m_events m) (m_closed m).

(** [Manager.RegisterSession]. *)
Definition ManagerRegisterSession (stat : option (Time * Z))
    (adapterID sessionID path : string) (m : Manager) : Manager :=
  match watchers m !! adapterID with
  | Some tw =>
      mkManager (<[adapterID := RegisterSession stat sessionID path tw]> (watchers m))
                (m_events m) (m_closed m)
  | None => m
  end.

(** *** The notification consumer

    [watchLoop] over a timed trace of notifications.  A timer started by
    [time.AfterFunc] is the pair of its deadline and of the event captured by
    its closure; it runs at its deadline unless stopped before, and a timer
    whose deadline is not later than the arrival of the next notification
    runs before that notification is handled. *)

(** [fsnotify.Event] and the bits of [fsnotify.Op]. *)
Record FsEvent := mkFsEvent { Name : string; Op : Z }.

Definition Create : Z := 1.
Definition Write : Z := 2.
Definition Remove : Z := 4.
Definition Rename : Z := 8.
Definition Chmod : Z := 16.

Definition debounceDelay : Duration := 100 * Millisecond.

(** The variables captured by the closures of [watchLoop]. *)
Record LoopState := mkLoop {
  lastPath : string;
  debounceTimer : option (Time * FsEvent)
}.

Definition loopStart : LoopState := mkLoop "" None.

(** The [switch] on [capturedEvent.Op]; [None] is the [return] taken for a
    remove event. *)
Definition eventTypeOf (op : Z) : option EventType :=
  if negb (Z.land op Create =? 0) then Some EventSessionCreated
  else if negb (Z.land op Write =? 0) then Some EventMessageAdded
  else if negb (Z.land op Remove =? 0) then None
  else Some EventSessionUpdated.

(** [filepath.Ext], a function of the standard library. *)
Variable filepath_Ext : string → string.

(** The body of the timer's function, run when the loop is not closed;
    [stat] is the outcome of [os.Stat(lastPath)]. *)
Definition timerFires (stat : option (Time * Z)) (captured : FsEvent)
    (ls : LoopState) (tw : TieredWatcher) : TieredWatcher :=
  let sessionID := extractID tw (lastPath ls) in
  let tw :=
    match sessions tw !! sessionID, stat with
    | Some info, Some (mt, sz) =>
        setSessions (<[sessionID := setStat mt sz info]> (sessions tw)) tw
    | _, _ => tw
    end in
  match eventTypeOf (Op captured) with
  | None => tw
  | Some ty => trySend (mkEvent ty sessionID) tw
  end.

(** Let the clock reach [t]: a pending timer whose deadline has come runs. *)
Definition advanceTo (stat : Time → string → option (Time * Z)) (t : Time)
    (st : LoopState * TieredWatcher) : LoopState * TieredWatcher :=
  let '(ls, tw) := st in
  match debounceTimer ls with
  | Some (deadline, captured) =>
      if deadline <=? t
      then (mkLoop (lastPath ls) None,
            timerFires (stat deadline (lastPath ls)) captured ls tw)
      else st
  | None => st
  end.

(** The test [tw.filePattern != "" && filepath.Ext(event.Name) != tw.filePattern]
    that makes the loop [continue]. *)
Definition skipped (tw : TieredWatcher) (event : FsEvent) : bool :=
  negb (String.eqb (filePattern tw) "")
  && negb (String.eqb (filepath_Ext (Name event)) (filePattern tw)).

(** One iteration of the loop for a notification received at time [t]. *)
Definition onNotification (stat : Time → string → option (Time * Z))
    (st : LoopState * TieredWatcher) (n : Time * FsEvent) : LoopState * TieredWatcher :=
  let '(t, event) := n in
  let '(ls, tw) := advanceTo stat t st in
  if skipped tw event then (ls, tw)
  else (mkLoop (Name event) (Some (t + debounceDelay, event)), tw).

(** The pending timer, if any, runs once no further notification comes. *)
Definition settle (stat : Time → string → option (Time * Z))
    (st : LoopState * TieredWatcher) : TieredWatcher :=
  let '(ls, tw) := st in
  match debounceTimer ls with
  | Some (deadline, captured) =>
      timerFires (stat deadline (lastPath ls)) captured ls tw
  | None => tw
  end.

(** The watcher after [watchLoop] has consumed [trace] and settled. *)
Definition watchLoop (stat : Time → string → option (Time * Z))
    (trace : list (Time * FsEvent)) (tw : TieredWatcher) : TieredWatcher :=
  settle stat (foldl (onNotification stat) (loopStart, tw) trace).

End Operations.

(** *** The poller

    One run of [pollColdSessions], taken without interleaving of the other
    goroutines; [stat path] is the outcome of [os.Stat(path)].  The cold
    sessions are checked in the order this model enumerates the map. *)

(** The local type [checkInfo]. *)
Record checkInfo := mkCheckInfo {
  ci_id : string;
  ci_path : string;
  ci_prev : Time;
  ci_size : Z
}.

(** The slice [toCheck]: the registered sessions that are not hot. *)
Definition coldToCheck (tw : TieredWatcher) : list checkInfo :=
  omap (λ kv, if decide (kv.1 ∈ hotIDs tw) then None
              else Some (mkCheckInfo kv.1 (Path kv.2) (ModTime kv.2) (FileSize kv.2)))
       (map_to_list (sessions tw)).

(** The test [stat.ModTime().After(c.prev) || stat.Size() != c.size]. *)
Definition fileChanged (c : checkInfo) (mt : Time) (sz : Z) : bool :=
  (ci_prev c <? mt) || negb (sz =? ci_size c).

(** The body of the second loop for one element of [toCheck]. *)
Definition pollOne (stat : string → option (Time * Z))
    (tw : TieredWatcher) (c : checkInfo) : TieredWatcher :=
  match stat (ci_path c) with
  | None => tw
  | Some (mt, sz) =>
      if fileChanged c mt sz then
        let tw :=
          match sessions tw !! ci_id c with
          | Some info => setSessions (<[ci_id c := setStat mt sz info]> (sessions tw)) tw
          | None => tw
          end in
        trySend (mkEvent EventSessionUpdated (ci_id c)) tw
      else tw
  end.

Definition pollColdSessions (stat : string → option (Time * Z))
    (tw : TieredWatcher) : TieredWatcher :=
  foldl (pollOne stat) tw (coldToCheck tw).

(** *** Shutdown

    [Close] as the watcher it leaves and the list of the shutdown steps it
    performs, in order. *)
Inductive CloseStep := StopPollTicker | ClosePollDone | CloseNotifier | CloseEvents.

Definition Close (tw : TieredWatcher) : TieredWatcher * list CloseStep :=
  if closed tw then (tw, [])
  else (mkTW (sessions tw) (hotIDs tw) (watchDirs tw) (events tw) true
             (rootDir tw) (filePattern tw) (extractID tw),
        [StopPollTicker; ClosePollDone; CloseNotifier; CloseEvents]).

(** [n] calls of [Close] in a row, with the steps they perform. *)
Fixpoint closeTimes (n : nat) (tw : TieredWatcher) : TieredWatcher * list CloseStep :=
  match n with
  | O => (tw, [])
  | S n =>
      let '(tw1, s1) := Close tw in
      let '(tw2, s2) := closeTimes n tw1 in
      (tw2, s1 ++ s2)
  end.

(** *** Sequences of operations

    The calls a watcher receives over its life, each with the clock readings
    and system outcomes it meets.  [DoRegisterSessions] carries the slice
    left by [sort.Slice]; the statements over all sequences hold whatever
    that slice is. *)
Inductive Call :=
  | DoRegisterSession (stat : option (Time * Z)) (id path : string)
  | DoRegisterSessions (sorted : list sessionTime) (nows : nat → Time)
      (addOK : string → bool) (batch : list SessionInfo)
  | DoPromoteToHot (now now' : Time) (addOK : string → bool) (id : string)
  | DoDemoteInactive (now : Time)
  | DoPoll (stat : string → option (Time * Z))
  | DoNotifications (stat : Time → string → option (Time * Z))
      (trace : list (Time * FsEvent)).

Definition step (dirOf ext : string → string) (tw : TieredWatcher) (op : Call)
    : TieredWatcher :=
  match op with
  | DoRegisterSession stat id path => RegisterSession stat id path tw
  | DoRegisterSessions sorted nows addOK batch =>
      RegisterSessionsWith dirOf sorted nows addOK batch tw
  | DoPromoteToHot now now' addOK id => PromoteToHot dirOf now now' addOK id tw
  | DoDemoteInactive now => demoteInactive now tw
  | DoPoll stat => pollColdSessions stat tw
  | DoNotifications stat trace => watchLoop ext stat trace tw
  end.

Definition run (dirOf ext : string → string) (ops : list Call) (tw : TieredWatcher)
    : TieredWatcher :=
  foldl (step dirOf ext) tw ops.

Definition isBatch (op : Call) : bool :=
  match op with DoRegisterSessions _ _ _ _ => true | _ => false end.

(** The hot list holds registered sessions, each once. *)
Definition hotWellFormed (tw : TieredWatcher) : Prop :=
  NoDup (hotIDs tw) ∧ Forall (λ h, is_Some (sessions tw !! h)) (hotIDs tw).

(** Two records of one session: same ID and path; [sameTier] when the time
    it became hot is the same too. *)
Definition sameSession (i i' : SessionInfo) : Prop :=
  ID i' = ID i ∧ Path i' = Path i.

Definition sameTier (i i' : SessionInfo) : Prop :=
  ID i' = ID i ∧ Path i' = Path i ∧ LastHot i' = LastHot i.

(** [tw'] differs from [tw] at most by refreshed file metadata of
    registered sessions and by events added at the end of the queue, which
    stays within its capacity. *)
Definition onlyRefreshes (tw tw' : TieredWatcher) : Prop :=
  hotIDs tw' = hotIDs tw ∧ watchDirs tw' = watchDirs tw ∧ closed tw' = closed tw ∧
  rootDir tw' = rootDir tw ∧ filePattern tw' = filePattern tw ∧
  extractID tw' = extractID tw ∧
  events tw `prefix_of` events tw' ∧
  ((length (events tw) ≤ eventsCap)%nat → (length (events tw') ≤ eventsCap)%nat) ∧
  (∀ k, option_Forall2 sameTier (sessions tw !! k) (sessions tw' !! k)).

(** [tw'] still has every session of [tw], under the same ID and path,
    watches at least the same directories, and its queue is within capacity
    if that of [tw] was. *)
Definition evolves (tw tw' : TieredWatcher) : Prop :=
  (∀ k i, sessions tw !! k = Some i →
          ∃ i', sessions tw' !! k = Some i' ∧ sameSession i i') ∧
  watchDirs tw ⊆ watchDirs tw' ∧
  ((length (events tw) ≤ eventsCap)%nat → (length (events tw') ≤ eventsCap)%nat).

(** A [checkInfo] taken from the record [info] of a cold session. *)
Definition checks (c : checkInfo) (info : SessionInfo) : Prop :=
  ci_path c = Path info ∧ ci_prev c = ModTime info ∧ ci_size c = FileSize info.

(** The session record the poller leaves for a cold session. *)
Definition polled (stat : string → option (Time * Z)) (info : SessionInfo) : SessionInfo :=
  match stat (Path info) with
  | Some (mt, sz) =>
      if (ModTime info <? mt) || negb (sz =? FileSize info) then setStat mt sz info
      else info
  | None => info
  end.

(** The event a settled notification queues, if any. *)
Definition eventOf (tw : TieredWatcher) (e : FsEvent) : list Event :=
  match eventTypeOf (Op e) with
  | Some ty => [mkEvent ty (extractID tw (Name e))]
  | None => []
  end.

(** Notifications spaced out: each arrives after the timer started by the
    previous one was due. *)
Fixpoint spacedFrom (prev : Time) (trace : list (Time * FsEvent)) : Prop :=
  match trace with
  | [] => True
  | (t, _) :: rest => prev + debounceDelay < t ∧ spacedFrom t rest
  end.

Definition isSpaced (trace : list (Time * FsEvent)) : Prop :=
  match trace with
  | [] => True
  | (t, _) :: rest => spacedFrom t rest
  end.

(** *** Predicates used in the statements *)



(** A burst: each notification after the first arrives before the timer
    started by the previous one is due. *)
Fixpoint burstFrom (prev : Time) (trace : list (Time * FsEvent)) : Prop :=
  match trace with
  | [] => True
  | (t, _) :: rest => prev ≤ t ∧ t < prev + debounceDelay ∧ burstFrom t rest
  end.

Definition isBurst (trace : list (Time * FsEvent)) : Prop :=
  match trace with
  | [] => True
  | (t, _) :: rest => burstFrom t rest
  end.

(** Number of queued events that name session [id]. *)
Definition emittedFor (id : string) (tw : TieredWatcher) : nat :=
  length (filter (λ e, SessionID e = id) (events tw)).

(** One event per path: every path notified in [trace] has exactly one
    event queued for its session once the loop has settled. *)
Definition onePerPath (ext : string → string)
    (stat : Time → string → option (Time * Z))
    (trace : list (Time * FsEvent)) (tw : TieredWatcher) : Prop :=
  Forall (λ n, emittedFor (extractID tw (Name n.2)) (watchLoop ext stat trace tw) = 1%nat)
         trace.

(** *** Sample data *)

Definition sampleDir (p : string) : string := "/sessions".
Definition sampleExt (p : string) : string := ".jsonl".
Definition allow (dir : string) : bool := true.

Definition sampleInfo (id : string) (mt : Time) : SessionInfo :=
  mkSessionInfo id ("/sessions/" +:+ id +:+ ".jsonl") mt 0 10.

Definition sampleNew : TieredWatcher := New "/sessions" ".jsonl" (λ p, p).

(** Two batch registrations, the second bringing three sessions more recent
    than every session of the first. *)
Definition twoBatches : TieredWatcher :=
  RegisterSessions sampleDir (λ i, 200 + Z.of_nat i) allow
    [sampleInfo "d" 4; sampleInfo "e" 5; sampleInfo "f" 6]
    (RegisterSessions sampleDir (λ i, 100 + Z.of_nat i) allow
       [sampleInfo "a" 1; sampleInfo "b" 2; sampleInfo "c" 3] sampleNew).

(** A full hot list [a; b; c] and a cold session [d]. *)
Definition fullHot : TieredWatcher :=
  RegisterSessions sampleDir (λ i, 100 + Z.of_nat i) allow
    [sampleInfo "a" 4; sampleInfo "b" 3; sampleInfo "c" 2; sampleInfo "d" 1] sampleNew.

(** Writes to two files, 50 ms apart. *)
Definition twoPaths : list (Time * FsEvent) :=
  [(1000 * Second, mkFsEvent "/sessions/a.jsonl" Write);
   (1000 * Second + 50 * Millisecond, mkFsEvent "/sessions/b.jsonl" Write)].

Definition noStat (t : Time) (path : string) : option (Time * Z) := None.


(** The file of session [b] has grown; no other file can be read. *)
Definition sampleStat (path : string) : option (Time * Z) :=
  if String.eqb path "/sessions/b.jsonl" then Some (500, 20) else None.

(** A life without batch registration. *)
Definition singleCalls : list Call :=
  [DoRegisterSession (Some (1, 10)) "a" "/sessions/a.jsonl";
   DoRegisterSession (Some (2, 10)) "b" "/sessions/b.jsonl";
   DoPromoteToHot 100 101 allow "a";
   DoPoll sampleStat;
   DoNotifications noStat twoPaths;
   DoDemoteInactive (100 + 6 * Minute)].

(** A write and a create, 200 ms apart. *)
Definition spacedWrites : list (Time * FsEvent) :=
  [(1000 * Second, mkFsEvent "/sessions/a.jsonl" Write);
   (1000 * Second + 200 * Millisecond, mkFsEvent "/sessions/b.jsonl" Create)].

(** Sessions [a] (hot) and [b] (cold). *)
Definition oneHot : TieredWatcher :=
  run sampleDir sampleExt (take 3 singleCalls) sampleNew.

(** Two adapters, the second with no session yet. *)
Definition sampleManager : Manager :=
  AddWatcher "codex" sampleNew (AddWatcher "claude" oneHot NewManager).

End TieredWatcher.

(** ** Status classifiers and caches of [agent_session.go]

    A call of a classifier is taken against one snapshot of the file system
    and one reading [now] of the clock.  Strings are byte strings; the tests
    on characters below are those of the source on ASCII text. *)

Module Workspace.

Definition sessionStatusTailBytes : Z := 2 * 1024 * 1024.
Definition codexSessionCacheTTL : Duration := 5 * Second.
Definition codexCwdCacheMaxEntries : nat := 2048.
Definition claudeActivityThreshold : Duration := 5 * Second.
Definition sessionActivityThreshold : Duration := 30 * Second.
Definition subagentMaxStaleness : Duration := 2 * Minute.

(** Modelled from the spec: the enum [WorktreeStatus], whose Go declaration
    lies outside src/ (spec, section 3: Active, Thinking, Waiting, Done,
    Unknown).  [StatusUnknown] renders the literal [0] that the source
    returns together with [found = false]; no function below looks at a
    status that came with [found = false]. *)
Inductive WorktreeStatus :=
  | StatusActive | StatusThinking | StatusWaiting | StatusDone | StatusUnknown.

#[export] Instance WorktreeStatus_eq_dec : EqDecision WorktreeStatus.
Proof. solve_decision. Defined.

(** [return 0, false]. *)
Definition notFound : WorktreeStatus * bool := (StatusUnknown, false).

(** *** Strings *)

Definition HasPrefix (s p : string) : bool := String.prefix p s.

Definition HasSuffix (s suf : string) : bool :=
  let n := String.length s in
  let m := String.length suf in
  (m <=? n)%nat && String.eqb (String.substring (n - m) m s) suf.

Definition TrimPrefix (s p : string) : string :=
  if HasPrefix s p
  then String.substring (String.length p) (String.length s - String.length p) s
  else s.

Definition TrimSuffix (s suf : string) : string :=
  if HasSuffix s suf
  then String.substring 0 (String.length s - String.length suf) s
  else s.

(** White space, as [unicode.IsSpace] on ASCII: tab, line feed, vertical
    tab, form feed, carriage return, space. *)
Definition isSpace (c : Ascii.ascii) : bool :=
  let n := Ascii.nat_of_ascii c in
  ((9 <=? n)%nat && (n <=? 13)%nat) || (n =? 32)%nat.

Fixpoint dropSpace (l : list Ascii.ascii) : list Ascii.ascii :=
  match l with
  | c :: l' => if isSpace c then dropSpace l' else l
  | [] => []
  end.

Definition TrimSpace (s : string) : string :=
  String.string_of_list_ascii
    (rev (dropSpace (rev (dropSpace (String.list_ascii_of_string s))))).

(** [strings.Split(s, sep)] for a separator of one byte. *)
Fixpoint Split (sep : Ascii.ascii) (s : string) : list string :=
  match s with
  | EmptyString => [""]
  | String c rest =>
      if Ascii.eqb c sep then "" :: Split sep rest
      else match Split sep rest with
           | h :: t => String c h :: t
           | [] => [String c ""]
           end
  end.

Definition newline : Ascii.ascii := Ascii.ascii_of_nat 10.
Definition carriageReturn : Ascii.ascii := Ascii.ascii_of_nat 13.

(** [strings.ReplaceAll(s, "/", "-")]. *)
Fixpoint slashesToDashes (s : string) : string :=
  match s with
  | EmptyString => EmptyString
  | String c rest =>
      String (if Ascii.eqb c "/"%char then "-"%char else c) (slashesToDashes rest)
  end.

Definition isAlnumOrDash (c : Ascii.ascii) : bool :=
  let n := Ascii.nat_of_ascii c in
  ((97 <=? n)%nat && (n <=? 122)%nat) || ((65 <=? n)%nat && (n <=? 90)%nat)
  || ((48 <=? n)%nat && (n <=? 57)%nat) || (n =? 45)%nat.

(** [claudeProjectDirName]. *)
Fixpoint claudeProjectDirName (absPath : string) : string :=
  match absPath with
  | EmptyString => EmptyString
  | String c rest =>
      String (if isAlnumOrDash c then c else "-"%char) (claudeProjectDirName rest)
  end.

(** The tokens of a [bufio.Scanner] with the default line splitter and a
    buffer limit of [maxTok] bytes: lines without their end-of-line marker,
    no token for the empty remainder after a final line feed, and the scan
    ends before a line that does not fit the buffer. *)
Definition dropCR (s : string) : string :=
  if HasSuffix s (String carriageReturn "") then String.substring 0 (String.length s - 1) s else s.

Fixpoint fitting (maxTok : Z) (ls : list string) : list string :=
  match ls with
  | [] => []
  | l :: rest =>
      if Z.of_nat (String.length l) <? maxTok then l :: fitting maxTok rest else []
  end.

Definition scanLines (maxTok : Z) (data : string) : list string :=
  let parts := Split newline data in
  let parts :=
    match last parts with
    | Some "" => take (length parts - 1) parts
    | _ => parts
    end in
  dropCR <$> fitting maxTok parts.

(** The last [n] bytes of [data] when it is longer. *)
Definition tailBytes (n : Z) (data : string) : string :=
  let size := Z.of_nat (String.length data) in
  if n <? size
  then String.substring (Z.to_nat (size - n)) (Z.to_nat n) data
  else data.

(** *** The file system, as the classifiers observe it *)

(** [os.FileInfo]: the results of [ModTime()] and [Size()]. *)
Record FileInfo := mkFileInfo { ModTime : Time; Size : Z }.

(** [fs.DirEntry]; [Info] is [None] when [e.Info()] returns an error. *)
Record DirEntry := mkDirEntry {
  Name : string;
  IsDir : bool;
  Info : option FileInfo
}.

(** One snapshot.  Each field answers a call with [None] for an error.
    [ReadAll path] is the content read after [os.Open(path)];
    [WalkDir root] lists, in the order of [filepath.WalkDir], the entries
    visited without error together with their paths. *)
Record FS := mkFS {
  UserHomeDir : option string;
  Abs : string → option string;
  ReadDir : string → option (list DirEntry);
  Stat : string → option FileInfo;
  ReadAll : string → option string;
  WalkDir : string → list (string * DirEntry)
}.

(** The Unix epoch, in nanoseconds from the zero [time.Time]. *)
Definition unixEpoch : Time := 62135596800 * Second.

(** [t.UnixNano()], for instants whose result fits an [int64]. *)
Definition UnixNano (t : Time) : Z := t - unixEpoch.

(** [isFileRecentlyModified]: [time.Since(info.ModTime()) < threshold]. *)
Definition isFileRecentlyModified (fs : FS) (now : Time) (path : string)
    (threshold : Duration) : bool :=
  match Stat fs path with
  | None => false
  | Some info => now - ModTime info <? threshold
  end.

(** *** JSON values decoded into [any] *)

Unset Elimination Schemes.
Inductive JSON :=
  | JNull
  | JBool (b : bool)
  | JNumber (literal : string)
  | JString (s : string)
  | JArray (items : list JSON)
  | JObject (fields : list (string * JSON)).
Set Elimination Schemes.

(** [m[k]] on a [map[string]any]. *)
Fixpoint jget (k : string) (fields : list (string * JSON)) : option JSON :=
  match fields with
  | [] => None
  | (k', v) :: rest => if String.eqb k k' then Some v else jget k rest
  end.

(** The type assertions [v.(string)], [v.(map[string]any)], [v.([]any)]. *)
Definition asString (v : option JSON) : option string :=
  match v with Some (JString s) => Some s | _ => None end.

Definition asObject (v : option JSON) : option (list (string * JSON)) :=
  match v with Some (JObject f) => Some f | _ => None end.

Definition asArray (v : option JSON) : option (list JSON) :=
  match v with Some (JArray l) => Some l | _ => None end.

(** The body of the loop of [isPlaceholderAssistant]: [true] when the block
    lets the loop go on. *)
Definition blankTextBlock (block : JSON) : bool :=
  match block with
  | JObject b =>
      let blockType := default "" (asString (jget "type" b)) in
      let text := default "" (asString (jget "text" b)) in
      String.eqb blockType "text" && String.eqb (TrimSpace text) ""
  | _ => false
  end.

Definition isPlaceholderAssistant (entry : list (string * JSON)) : bool :=
  match asObject (jget "message" entry) with
  | None => false
  | Some message =>
      match asArray (jget "content" message) with
      | None => false
      | Some content => forallb blankTextBlock content
      end
  end.

Definition toolUseBlock (block : JSON) : bool :=
  match block with
  | JObject b =>
      match jget "type" b with
      | Some (JString t) => String.eqb t "tool_use"
      | _ => false
      end
  | _ => false
  end.

Definition hasToolUse (entry : list (string * JSON)) : bool :=
  match asObject (jget "message" entry) with
  | None => false
  | Some message =>
      match asArray (jget "content" message) with
      | None => false
      | Some content => existsb toolUseBlock content
      end
  end.

(** [readTailLines]; [None] is the error return. *)
Definition readTailLines (fs : FS) (path : string) (maxBytes : Z) : option (list string) :=
  match ReadAll fs path with
  | None => None
  | Some data =>
      let size := Z.of_nat (String.length data) in
      if size =? 0 then Some []
      else
        let start := if maxBytes <? size then size - maxBytes else 0 in
        let lines := Split newline (tailBytes maxBytes data) in
        Some (if 0 <? start then drop 1 lines else lines)
  end.

(** *** Library functions taken as given

    [filepath.Clean], [filepath.Base] and the instances of [json.Unmarshal]
    at the types the source decodes into; a decoder answers [None] where
    [json.Unmarshal] returns an error. *)

(** The record decoded by [getCodexLastMessageStatus]. *)
Record codexRecord := mkCodexRecord {
  cr_Type : string;
  cr_PayloadType : string;
  cr_PayloadRole : string
}.

(** The record decoded by [getCodexSessionCWD]. *)
Record codexMeta := mkCodexMeta { cm_Type : string; cm_CWD : string }.

(** The entry decoded by [getPiLastMessageStatus]; [pe_Message] is the role
    of [entry.Message], [None] for a nil pointer. *)
Record piEntry := mkPiEntry { pe_Type : string; pe_Message : option string }.

Record Library := mkLibrary {
  filepath_Clean : string → string;
  filepath_Base : string → string;
  unmarshalAny : string → option (list (string * JSON));
  unmarshalCodexRecord : string → option codexRecord;
  unmarshalCodexMeta : string → option codexMeta;
  unmarshalPiEntry : string → option piEntry
}.

(** The entries of the two process-wide caches. *)
Record codexSessionCacheEntry := mkSessionCacheEntry {
  sessionPath : string;
  expiresAt : Time
}.

Record codexSessionCwdCacheEntry := mkCwdCacheEntry {
  cwd : string;
  modTime : Time;
  size_ : Z;
  lastAccess : Time
}.

#[export] Instance codexSessionCwdCacheEntry_eq_dec : EqDecision codexSessionCwdCacheEntry.
Proof. solve_decision. Defined.

Record Caches := mkCaches {
  codexSessionCache : gmap string codexSessionCacheEntry;
  codexSessionCwdCache : gmap string codexSessionCwdCacheEntry
}.

Definition noCaches : Caches := mkCaches ∅ ∅.

Section Classifiers.

Variable lib : Library.

(** [filepath.Join]: the non-empty elements joined by slashes, cleaned. *)
Definition Join (elems : list string) : string :=
  match filter (λ e, e ≠ "") elems with
  | [] => ""
  | first :: rest =>
      filepath_Clean lib (foldl (λ acc e, acc +:+ "/" +:+ e) first rest)
  end.

(** The backward loop of [getClaudeSessionStatus] over [lines], last line
    first. *)
Fixpoint scanClaude (lines : list string) : WorktreeStatus * bool :=
  match lines with
  | [] => notFound
  | l :: rest =>
      let line := TrimSpace l in
      if String.eqb line "" then scanClaude rest
      else
        match unmarshalAny lib line with
        | None => scanClaude rest
        | Some msg =>
            match asString (jget "type" msg) with
            | None => scanClaude rest
            | Some msgType =>
                if String.eqb msgType "user" then (StatusActive, true)
                else if String.eqb msgType "assistant" then
                  if isPlaceholderAssistant msg then (StatusThinking, true)
                  else if hasToolUse msg then (StatusWaiting, true)
                  else (StatusDone, true)
                else scanClaude rest
            end
        end
  end.

Definition getClaudeSessionStatus (fs : FS) (path : string) : WorktreeStatus * bool :=
  match readTailLines fs path sessionStatusTailBytes with
  | None => notFound
  | Some lines => scanClaude (rev lines)
  end.

(** The selection loops "most recent entry with suffix, by mtime": the
    running pair of the best path and its [UnixNano], from [("", 0)]. *)
Definition mostRecentWith (suffix : string) (dir : string) (entries : list DirEntry)
    : string * Z :=
  foldl (λ best e,
           if IsDir e || negb (HasSuffix (Name e) suffix) then best
           else match Info e with
                | None => best
                | Some info =>
                    let mt := UnixNano (ModTime info) in
                    if best.2 <? mt then (Join [dir; Name e], mt) else best
                end)
        ("", 0) entries.

Definition subagentStatus (fs : FS) (now : Time) (dir : string)
    (mtimeThreshold : Duration) : WorktreeStatus * bool :=
  match ReadDir fs dir with
  | None => notFound
  | Some entries =>
      let mostRecentPath := (mostRecentWith ".jsonl" dir entries).1 in
      if String.eqb mostRecentPath "" then notFound
      else if negb (isFileRecentlyModified fs now mostRecentPath subagentMaxStaleness)
      then notFound
      else
        let '(status, ok) := getClaudeSessionStatus fs mostRecentPath in
        if negb ok then notFound
        else
          let freshMtime := isFileRecentlyModified fs now mostRecentPath mtimeThreshold in
          match status with
          | StatusActive =>
              if freshMtime then (StatusActive, true) else (StatusThinking, true)
          | StatusThinking => (StatusThinking, true)
          | StatusWaiting | StatusDone =>
              if freshMtime then (StatusActive, true) else notFound
          | _ => notFound
          end
  end.

(** The local type [fileEntry] of [findRecentJSONLFiles]. *)
Record fileEntry := mkFileEntry { fe_path : string; fe_modTime : Z }.

(** [sort.Slice] by [modTime], most recent first, resolved as an insertion
    sort that keeps listing order among equal times; Go leaves the order of
    equal elements unspecified. *)
Fixpoint insertByTime (x : fileEntry) (l : list fileEntry) : list fileEntry :=
  match l with
  | [] => [x]
  | y :: l' =>
      if fe_modTime y <? fe_modTime x then x :: l else y :: insertByTime x l'
  end.

Definition sortRecentFirst (l : list fileEntry) : list fileEntry :=
  foldr insertByTime [] l.

(** [findRecentJSONLFiles]; [None] is the error return. *)
Definition findRecentJSONLFiles (fs : FS) (dir excludePrefix : string)
    : option (list string) :=
  match ReadDir fs dir with
  | None => None
  | Some entries =>
      let files :=
        omap (λ e,
                if IsDir e || negb (HasSuffix (Name e) ".jsonl") then None
                else if negb (String.eqb excludePrefix "")
                        && HasPrefix (Name e) excludePrefix then None
                else match Info e with
                     | None => None
                     | Some info =>
                         Some (mkFileEntry (Join [dir; Name e]) (UnixNano (ModTime info)))
                     end) entries in
      Some (fe_path <$> sortRecentFirst files)
  end.

(** The loop of [detectClaudeSessionStatus] over the candidates. *)
Fixpoint claudeCandidates (fs : FS) (now : Time) (projectDir : string)
    (sessionFiles : list string) : WorktreeStatus * bool :=
  match sessionFiles with
  | [] => notFound
  | sessionFile :: rest =>
      let '(status, ok) := getClaudeSessionStatus fs sessionFile in
      if negb ok then claudeCandidates fs now projectDir rest
      else if decide (status = StatusActive) then
        if isFileRecentlyModified fs now sessionFile claudeActivityThreshold
        then (StatusActive, true) else (StatusThinking, true)
      else if decide (status = StatusThinking) then (StatusThinking, true)
      else if isFileRecentlyModified fs now sessionFile claudeActivityThreshold
      then (StatusActive, true)
      else
        let sessionUUID := TrimSuffix (filepath_Base lib sessionFile) ".jsonl" in
        let subagentsDir := Join [projectDir; sessionUUID; "subagents"] in
        let '(subStatus, subOK) :=
          subagentStatus fs now subagentsDir claudeActivityThreshold in
        if subOK then (subStatus, true) else (status, true)
  end.

Definition claudeProjectDir (home absPath : string) : string :=
  Join [home; ".claude"; "projects"; claudeProjectDirName absPath].

Definition detectClaudeSessionStatus (fs : FS) (now : Time) (worktreePath : string)
    : WorktreeStatus * bool :=
  match UserHomeDir fs with
  | None => notFound
  | Some home =>
      match Abs fs worktreePath with
      | None => notFound
      | Some absPath =>
          let projectDir := claudeProjectDir home absPath in
          match findRecentJSONLFiles fs projectDir "agent-" with
          | None | Some [] => notFound
          | Some sessionFiles => claudeCandidates fs now projectDir sessionFiles
          end
      end
  end.

(** [getPiLastMessageStatus]. *)
Definition piLastRole (lines : list string) : string :=
  foldl (λ lastRole line,
           match unmarshalPiEntry lib line with
           | None => lastRole
           | Some entry =>
               match pe_Message entry with
               | Some role =>
                   if String.eqb (pe_Type entry) "message"
                      && (String.eqb role "user" || String.eqb role "assistant")
                   then role else lastRole
               | None => lastRole
               end
           end) "" lines.

Definition getPiLastMessageStatus (fs : FS) (path : string) : WorktreeStatus * bool :=
  match ReadAll fs path with
  | None => notFound
  | Some data =>
      let lastRole :=
        piLastRole (scanLines (10 * 1024 * 1024) (tailBytes sessionStatusTailBytes data)) in
      if String.eqb lastRole "user" then (StatusActive, true)
      else if String.eqb lastRole "assistant" then (StatusWaiting, true)
      else notFound
  end.

Definition piProjectDir (home absPath : string) : string :=
  Join [home; ".pi"; "agent"; "sessions";
        "--" +:+ slashesToDashes (TrimPrefix absPath "/") +:+ "--"].

Definition detectPiSessionStatus (fs : FS) (now : Time) (worktreePath : string)
    : WorktreeStatus * bool :=
  match UserHomeDir fs with
  | None => notFound
  | Some home =>
      match Abs fs worktreePath with
      | None => notFound
      | Some absPath =>
          match findRecentJSONLFiles fs (piProjectDir home absPath) "" with
          | None | Some [] => notFound
          | Some (sessionFile :: _) =>
              if isFileRecentlyModified fs now sessionFile sessionActivityThreshold
              then (StatusActive, true)
              else getPiLastMessageStatus fs sessionFile
          end
      end
  end.

(** **** The Codex locator and its caches *)

Definition codexSessionCacheKey (sessionsDir worktreePath : string) : string :=
  sessionsDir +:+ String newline "" +:+ worktreePath.

(** [cachedCodexSessionPath]: the pair returned and the cache left. *)
Definition cachedCodexSessionPath (fs : FS) (now : Time)
    (sessionsDir worktreePath : string)
    (c : gmap string codexSessionCacheEntry)
    : (string * bool) * gmap string codexSessionCacheEntry :=
  let key := codexSessionCacheKey sessionsDir worktreePath in
  match c !! key with
  | None => (("", false), c)
  | Some entry =>
      if expiresAt entry <? now then (("", false), delete key c)
      else if String.eqb (sessionPath entry) "" then (("", true), c)
      else match Stat fs (sessionPath entry) with
           | Some _ => ((sessionPath entry, true), c)
           | None => (("", false), delete key c)
           end
  end.

Definition setCachedCodexSessionPath (now : Time)
    (sessionsDir worktreePath path : string)
    (c : gmap string codexSessionCacheEntry) : gmap string codexSessionCacheEntry :=
  <[codexSessionCacheKey sessionsDir worktreePath :=
      mkSessionCacheEntry path (now + codexSessionCacheTTL)]> c.

(** [cachedCodexSessionCWD]: the pair returned and the cache left. *)
Definition cachedCodexSessionCWD (now : Time) (path : string) (info : FileInfo)
    (c : gmap string codexSessionCwdCacheEntry)
    : (string * bool) * gmap string codexSessionCwdCacheEntry :=
  match c !! path with
  | Some entry =>
      if (size_ entry =? Size info) && (modTime entry =? ModTime info)
      then ((cwd entry, true),
            <[path := mkCwdCacheEntry (cwd entry) (modTime entry) (size_ entry) now]> c)
      else (("", false), delete path c)
  | None => (("", false), c)
  end.

(** [sort.Slice] by [lastAccess], oldest first, resolved as an insertion
    sort over the model's enumeration of the map. *)
Fixpoint insertByAccess (x : string * Time) (l : list (string * Time))
    : list (string * Time) :=
  match l with
  | [] => [x]
  | y :: l' => if x.2 <? y.2 then x :: l else y :: insertByAccess x l'
  end.

Definition pruneCodexSessionCWDCacheLocked (c : gmap string codexSessionCwdCacheEntry)
    : gmap string codexSessionCwdCacheEntry :=
  if decide (size c ≤ codexCwdCacheMaxEntries)%nat then c
  else
    let entries :=
      foldr insertByAccess [] ((λ kv, (kv.1, lastAccess kv.2)) <$> map_to_list c) in
    let excess := (size c - codexCwdCacheMaxEntries)%nat in
    foldl (λ c e, delete e.1 c) c (take excess entries).

Definition setCodexSessionCWDCache (now : Time) (path : string) (info : FileInfo)
    (dir : string) (c : gmap string codexSessionCwdCacheEntry)
    : gmap string codexSessionCwdCacheEntry :=
  pruneCodexSessionCWDCacheLocked
    (<[path := mkCwdCacheEntry dir (ModTime info) (Size info) now]> c).

(** The scan of [getCodexSessionCWD] for the first [session_meta] record
    with a non-empty [cwd]. *)
Fixpoint firstSessionMeta (lines : list string) : option string :=
  match lines with
  | [] => None
  | l :: rest =>
      match unmarshalCodexMeta lib l with
      | Some record =>
          if String.eqb (cm_Type record) "session_meta"
             && negb (String.eqb (cm_CWD record) "")
          then Some (cm_CWD record)
          else firstSessionMeta rest
      | None => firstSessionMeta rest
      end
  end.

(** [getCodexSessionCWD]: the string returned ([None] for the error return)
    and the cache left. *)
Definition getCodexSessionCWD (fs : FS) (now : Time) (path : string) (info : FileInfo)
    (c : gmap string codexSessionCwdCacheEntry)
    : option string * gmap string codexSessionCwdCacheEntry :=
  match cachedCodexSessionCWD now path info c with
  | ((cached, true), c) => (Some cached, c)
  | (_, c) =>
      match ReadAll fs path with
      | None => (None, c)
      | Some data =>
          match firstSessionMeta (scanLines (1024 * 1024) data) with
          | Some dir => (Some dir, setCodexSessionCWDCache now path info dir c)
          | None => (Some "", c)
          end
      end
  end.

(** [cwdMatches]; the separator is the slash. *)
Definition cwdMatches (dir worktreePath : string) : bool :=
  let dir := filepath_Clean lib dir in
  let worktreePath := filepath_Clean lib worktreePath in
  String.eqb dir worktreePath || HasPrefix dir (worktreePath +:+ "/").

(** The function passed to [filepath.WalkDir] by [findCodexSessionForPath],
    on the running triple of [bestPath], [bestModTime] and the cache. *)
Definition codexVisit (fs : FS) (now : Time) (worktreePath : string)
    (acc : string * Z * gmap string codexSessionCwdCacheEntry)
    (visited : string * DirEntry)
    : string * Z * gmap string codexSessionCwdCacheEntry :=
  let '(bestPath, bestModTime, c) := acc in
  let '(path, d) := visited in
  if IsDir d then acc
  else if negb (HasSuffix (Name d) ".jsonl") then acc
  else match Info d with
       | None => acc
       | Some info =>
           match getCodexSessionCWD fs now path info c with
           | (None, c) => (bestPath, bestModTime, c)
           | (Some dir, c) =>
               if negb (cwdMatches dir worktreePath) then (bestPath, bestModTime, c)
               else
                 let mt := UnixNano (ModTime info) in
                 if bestModTime <? mt then (path, mt, c) else (bestPath, bestModTime, c)
           end
       end.

(** [findCodexSessionForPath]; its error result is always nil. *)
Definition findCodexSessionForPath (fs : FS) (now : Time)
    (sessionsDir worktreePath : string) (cs : Caches) : string * Caches :=
  match cachedCodexSessionPath fs now sessionsDir worktreePath (codexSessionCache cs) with
  | ((cached, true), sc) => (cached, mkCaches sc (codexSessionCwdCache cs))
  | (_, sc) =>
      let '(bestPath, _, cc) :=
        foldl (codexVisit fs now worktreePath) ("", 0, codexSessionCwdCache cs)
              (WalkDir fs sessionsDir) in
      (bestPath,
       mkCaches (setCachedCodexSessionPath now sessionsDir worktreePath bestPath sc) cc)
  end.

(** The backward loop of [getCodexLastMessageStatus], last line first. *)
Fixpoint scanCodex (lines : list string) : WorktreeStatus * bool :=
  match lines with
  | [] => notFound
  | l :: rest =>
      let line := TrimSpace l in
      if String.eqb line "" then scanCodex rest
      else
        match unmarshalCodexRecord lib line with
        | None => scanCodex rest
        | Some record =>
            if String.eqb (cr_Type record) "response_item"
               && String.eqb (cr_PayloadType record) "message"
            then
              if String.eqb (cr_PayloadRole record) "assistant" then (StatusWaiting, true)
              else if String.eqb (cr_PayloadRole record) "user" then (StatusActive, true)
              else scanCodex rest
            else scanCodex rest
        end
  end.

Definition getCodexLastMessageStatus (fs : FS) (path : string) : WorktreeStatus * bool :=
  match readTailLines fs path sessionStatusTailBytes with
  | None => notFound
  | Some lines => scanCodex (rev lines)
  end.

(** [detectCodexSessionStatus]: the pair returned and the caches left. *)
Definition detectCodexSessionStatus (fs : FS) (now : Time) (worktreePath : string)
    (cs : Caches) : (WorktreeStatus * bool) * Caches :=
  match UserHomeDir fs with
  | None => (notFound, cs)
  | Some home =>
      match Abs fs worktreePath with
      | None => (notFound, cs)
      | Some absPath =>
          let sessionsDir := Join [home; ".codex"; "sessions"] in
          let '(sessionFile, cs) :=
            findCodexSessionForPath fs now sessionsDir absPath cs in
          if String.eqb sessionFile "" then (notFound, cs)
          else if isFileRecentlyModified fs now sessionFile sessionActivityThreshold
          then ((StatusActive, true), cs)
          else (getCodexLastMessageStatus fs sessionFile, cs)
      end
  end.

(** [detectCursorSessionStatus]. *)
Definition detectCursorSessionStatus (worktreePath : string) : WorktreeStatus * bool :=
  notFound.

(** *** Predicates used in the statements *)

(** What the backward scans of the principal format make of one line: its
    ["type"] string and the decoded object, or [None] for a line they pass
    over (blank, undecodable, or without a string ["type"]). *)
Definition decodeLine (l : string) : option (string * list (string * JSON)) :=
  let line := TrimSpace l in
  if String.eqb line "" then None
  else match unmarshalAny lib line with
       | None => None
       | Some msg =>
           match asString (jget "type" msg) with
           | Some ty => Some (ty, msg)
           | None => None
           end
       end.

(** A line that carries no recognized role. *)
Definition unrecognized (l : string) : Prop :=
  match decodeLine l with
  | Some (ty, _) => ty ≠ "user" ∧ ty ≠ "assistant"
  | None => True
  end.


(** No line of the file at [path] carries a recognized role. *)
Definition noRecognizedRole (fs : FS) (path : string) : Prop :=
  ∃ lines, readTailLines fs path sessionStatusTailBytes = Some lines ∧
           Forall unrecognized lines.




(** [f] is the candidate that [detectClaudeSessionStatus] settles on: the
    candidates listed before it read as not found (no recognized role, or
    unreadable). *)
Definition chosenCandidate (fs : FS) (worktreePath projectDir f : string)
    (rest : list string) : Prop :=
  ∃ home absPath passed,
    UserHomeDir fs = Some home ∧ Abs fs worktreePath = Some absPath ∧
    projectDir = claudeProjectDir home absPath ∧
    findRecentJSONLFiles fs projectDir "agent-" = Some (passed ++ f :: rest) ∧
    Forall (λ g, (getClaudeSessionStatus fs g).2 = false) passed.

(** The sub-session directory of candidate [f]. *)
Definition subagentsDirOf (projectDir f : string) : string :=
  Join [projectDir; TrimSuffix (filepath_Base lib f) ".jsonl"; "subagents"].

End Classifiers.

(** An entry the selection loops consider: a regular file whose name ends
    in [suffix] and whose [Info()] succeeds with [info]. *)
Definition eligible (suffix : string) (e : DirEntry) (info : FileInfo) : Prop :=
  IsDir e = false ∧ HasSuffix (Name e) suffix = true ∧ Info e = Some info.

(** The body of the selection loop of [mostRecentWith]. *)
Definition pick (lib : Library) (suffix dir : string) (best : string * Z) (e : DirEntry)
    : string * Z :=
  if IsDir e || negb (HasSuffix (Name e) suffix) then best
  else match Info e with
       | None => best
       | Some info =>
           let mt := UnixNano (ModTime info) in
           if best.2 <? mt then (Join lib [dir; Name e], mt) else best
       end.

(** The four statuses a classifier reports together with [found = true]. *)
Definition reported (st : WorktreeStatus) : Prop :=
  st = StatusActive ∨ st = StatusThinking ∨ st = StatusWaiting ∨ st = StatusDone.

(** *** Sample data *)

(** A library instance for clean paths and a small vocabulary of lines. *)
Definition baseName (p : string) : string :=
  default p (last (Split "/"%char p)).

Definition textContent (t : string) : JSON :=
  JArray [JObject [("type", JString "text"); ("text", JString t)]].

Definition assistantEntry (content : JSON) : list (string * JSON) :=
  [("type", JString "assistant"); ("message", JObject [("content", content)])].

Definition sampleAny (line : string) : option (list (string * JSON)) :=
  if String.eqb line "user" then Some [("type", JString "user")]
  else if String.eqb line "assistant-text" then Some (assistantEntry (textContent "All done."))
  else if String.eqb line "assistant-blank" then Some (assistantEntry (textContent "  "))
  else if String.eqb line "assistant-tool" then
    Some (assistantEntry
            (JArray [JObject [("type", JString "text"); ("text", JString "Running.")];
                     JObject [("type", JString "tool_use"); ("name", JString "Bash")]]))
  else if String.eqb line "snapshot" then Some [("type", JString "file-history-snapshot")]
  else None.

Definition samplePi (line : string) : option piEntry :=
  if String.eqb line "pi-user" then Some (mkPiEntry "message" (Some "user"))
  else if String.eqb line "pi-assistant" then Some (mkPiEntry "message" (Some "assistant"))
  else if String.eqb line "pi-session" then Some (mkPiEntry "session" None)
  else None.

Definition sampleCodexRecord (line : string) : option codexRecord :=
  if String.eqb line "codex-user" then Some (mkCodexRecord "response_item" "message" "user")
  else if String.eqb line "codex-assistant"
  then Some (mkCodexRecord "response_item" "message" "assistant")
  else if String.eqb line "codex-meta" then Some (mkCodexRecord "session_meta" "" "")
  else None.

Definition sampleCodexMeta (line : string) : option codexMeta :=
  if String.eqb line "codex-meta" then Some (mkCodexMeta "session_meta" "/w")
  else if String.eqb line "codex-user" then Some (mkCodexMeta "response_item" "")
  else None.

Definition sampleLib : Library :=
  mkLibrary (λ p, p) baseName sampleAny sampleCodexRecord sampleCodexMeta samplePi.

(** A file of the sample snapshots: path, modification time, content. *)
Record sampleFile := mkSampleFile { sf_path : string; sf_modTime : Time; sf_data : string }.

Definition lookupFile (files : list sampleFile) (path : string) : option sampleFile :=
  List.find (λ f, String.eqb (sf_path f) path) files.

Definition infoOf (f : sampleFile) : FileInfo :=
  mkFileInfo (sf_modTime f) (Z.of_nat (String.length (sf_data f))).

Definition entryOf (f : sampleFile) : DirEntry :=
  mkDirEntry (baseName (sf_path f)) false (Some (infoOf f)).

(** The snapshot with home directory [/home/u], the directories [dirs]
    (path and files, in listing order) and nothing else. *)
Definition sampleFS (dirs : list (string * list sampleFile)) : FS :=
  let files : list sampleFile := concat (snd <$> dirs) in
  mkFS (Some "/home/u") (λ p, Some p)
       (λ dir, match List.find (λ d, String.eqb d.1 dir) dirs with
               | Some d => Some (entryOf <$> d.2)
               | None => None
               end)
       (λ p, match lookupFile files p with Some f => Some (infoOf f) | None => None end)
       (λ p, match lookupFile files p with Some f => Some (sf_data f) | None => None end)
       (λ root, (λ f, (sf_path f, entryOf f)) <$>
                   List.filter (λ f, HasPrefix (sf_path f) root) files).

Definition sampleNow : Time := unixEpoch + 1000000 * Second.

Definition ago (d : Duration) : Time := sampleNow - d.

Definition claudeDir : string := "/home/u/.claude/projects/-w".
Definition piDir : string := "/home/u/.pi/agent/sessions/--w--".
Definition codexDir : string := "/home/u/.codex/sessions".

(** One session file written 2 s ago whose only line does not decode. *)
Definition freshGarbage : FS :=
  sampleFS [(claudeDir, [mkSampleFile (claudeDir +:+ "/s.jsonl") (ago (2 * Second)) "garbage"])].

(** One session file written 2 s ago that ends in a placeholder entry. *)
Definition freshPlaceholder : FS :=
  sampleFS [(claudeDir,
             [mkSampleFile (claudeDir +:+ "/s.jsonl") (ago (2 * Second)) "assistant-blank"])].


(** An assistant message with content [line], written a minute ago; no
    sub-session directory. *)
Definition staleAssistant (line : string) : FS :=
  sampleFS [(claudeDir, [mkSampleFile (claudeDir +:+ "/s.jsonl") (ago Minute) line])].

(** A parent whose text-only assistant message is a minute old, and a
    sub-session with content [line] written [age] ago. *)
Definition subFile (age : Duration) (line : string) : sampleFile :=
  mkSampleFile (claudeDir +:+ "/p/subagents/agent-1.jsonl") (ago age) line.

Definition withSubagent (age : Duration) (line : string) : FS :=
  sampleFS
    [(claudeDir, [mkSampleFile (claudeDir +:+ "/p.jsonl") (ago Minute) "assistant-text"]);
     (claudeDir +:+ "/p/subagents", [subFile age line])].




(** A Pi and a Codex session written 2 s ago whose content does not decode
    as a message. *)
Definition freshPi : FS :=
  sampleFS [(piDir, [mkSampleFile (piDir +:+ "/s.jsonl") (ago (2 * Second)) "garbage"])].

Definition freshCodex : FS :=
  sampleFS [(codexDir,
             [mkSampleFile (codexDir +:+ "/rollout-1.jsonl") (ago (2 * Second))
                ("codex-meta" +:+ String newline "garbage")])].

(** A cache entry stored for modification time 100 and size 7. *)
Definition sampleCwdCache : gmap string codexSessionCwdCacheEntry :=
  {[ codexDir +:+ "/rollout-1.jsonl" := mkCwdCacheEntry "/stale" 100 7 50 ]}.

End Workspace.

(** * Properties *)

Module WatcherProofs.
Import TieredWatcher.

(** What the scan of [demoteOldestLocked] returns: either nothing is
    strictly before the starting time, or the index of the first entry whose
    [LastHot] is least. *)
Lemma findOldest_spec m ids : ∀ i idx t,
  (findOldest m ids i idx t = idx ∧
   ∀ h ih, h ∈ ids → m !! h = Some ih → t ≤ LastHot ih)
  ∨ (∃ j e ie, findOldest m ids i idx t = (i + j)%nat ∧ ids !! j = Some e ∧
       m !! e = Some ie ∧ LastHot ie < t ∧
       (∀ h ih, h ∈ ids → m !! h = Some ih → LastHot ie ≤ LastHot ih) ∧
       (∀ j' h ih, (j' < j)%nat → ids !! j' = Some h → m !! h = Some ih →
                   LastHot ie < LastHot ih)).
Proof.
  induction ids as [|id rest IH]; intros i idx t; simpl.
  { left. split; [done|]. intros h ih Hh. by apply elem_of_nil in Hh. }
  destruct (m !! id) as [info|] eqn:Hid.
  - destruct (Z.ltb_spec (LastHot info) t) as [Hlt|Hge].
    + destruct (IH (S i) i (LastHot info))
        as [[-> Hall]|(j & e & ie & -> & Hj & He & Hlt' & Hmin & Hfst)].
      * right. exists 0%nat, id, info.
        split_and!; [lia|done|done|done| |intros; lia].
        intros h ih [->|Hh]%elem_of_cons Hm; [|by eauto].
        rewrite Hid in Hm. by inversion Hm.
      * right. exists (S j), e, ie.
        split_and!; [lia|done|done|lia| |].
        -- intros h ih [->|Hh]%elem_of_cons Hm; [|by eauto].
           rewrite Hid in Hm. inversion Hm; subst. lia.
        -- intros [|j'] h ih Hj' Hl Hm; simpl in Hl.
           ++ inversion Hl; subst. rewrite Hid in Hm. inversion Hm; subst. lia.
           ++ apply (Hfst j' h ih); auto with lia.
    + destruct (IH (S i) idx t)
        as [[-> Hall]|(j & e & ie & -> & Hj & He & Hlt' & Hmin & Hfst)].
      * left. split; [done|].
        intros h ih [->|Hh]%elem_of_cons Hm; [|by eauto].
        rewrite Hid in Hm. inversion Hm; subst. lia.
      * right. exists (S j), e, ie.
        split_and!; [lia|done|done|done| |].
        -- intros h ih [->|Hh]%elem_of_cons Hm; [|by eauto].
           rewrite Hid in Hm. inversion Hm; subst. lia.
        -- intros [|j'] h ih Hj' Hl Hm; simpl in Hl.
           ++ inversion Hl; subst. rewrite Hid in Hm. inversion Hm; subst. lia.
           ++ apply (Hfst j' h ih); auto with lia.
  - destruct (IH (S i) idx t)
      as [[-> Hall]|(j & e & ie & -> & Hj & He & Hlt' & Hmin & Hfst)].
    + left. split; [done|].
      intros h ih [->|Hh]%elem_of_cons Hm; [congruence|by eauto].
    + right. exists (S j), e, ie.
      split_and!; [lia|done|done|done| |].
      * intros h ih [->|Hh]%elem_of_cons Hm; [congruence|by eauto].
      * intros [|j'] h ih Hj' Hl Hm; simpl in Hl.
        -- inversion Hl; subst. congruence.
        -- apply (Hfst j' h ih); auto with lia.
Qed.

Lemma demoteOldestLocked_hot now tw :
  hotIDs (demoteOldestLocked now tw) =
  delete (findOldest (sessions tw) (hotIDs tw) 0 0 now) (hotIDs tw).
Proof.
  unfold demoteOldestLocked. rewrite delete_take_drop.
  destruct (hotIDs tw) eqn:E; [|done].
  by rewrite E, take_nil, drop_nil.
Qed.

Lemma demoteOldestLocked_sessions now tw :
  sessions (demoteOldestLocked now tw) = sessions tw.
Proof. unfold demoteOldestLocked. by destruct (hotIDs tw). Qed.










Section Facts.
Variable dirOf : string → string.



Lemma PromoteToHot_unregistered now now' addOK id tw :
  sessions tw !! id = None → PromoteToHot dirOf now now' addOK id tw = tw.
Proof. intros H. unfold PromoteToHot. by rewrite H. Qed.

Lemma PromoteToHot_sessions now now' addOK id tw :
  sessions (PromoteToHot dirOf now now' addOK id tw) =
  match sessions tw !! id with
  | Some info => <[id := setLastHot now info]> (sessions tw)
  | None => sessions tw
  end.
Proof.
  unfold PromoteToHot, watchSessionDir, demoteOldestLocked.
  destruct (sessions tw !! id) as [info|]; [|done]. simpl.
  repeat (case_decide || case_match); reflexivity.
Qed.

Lemma watchSessionDir_hotIDs addOK info tw :
  hotIDs (watchSessionDir dirOf addOK info tw) = hotIDs tw.
Proof. unfold watchSessionDir. by repeat case_match. Qed.

Lemma watchSessionDir_sessions addOK info tw :
  sessions (watchSessionDir dirOf addOK info tw) = sessions tw.
Proof. unfold watchSessionDir. by repeat case_match. Qed.

Lemma PromoteToHot_hot now now' addOK id tw :
  id ∈ hotIDs tw → hotIDs (PromoteToHot dirOf now now' addOK id tw) = hotIDs tw.
Proof.
  intros Hin. unfold PromoteToHot.
  destruct (sessions tw !! id); [|done]. simpl. by rewrite decide_True.
Qed.






End Facts.

(** C10. [PromoteToHot] on a session ID absent from the watcher's registry
    returns the watcher unchanged (sessions, hot list, watched directories,
    queued events and all), and [Manager.PromoteSession] for an ID that no
    owned watcher has registered returns the manager unchanged. *)
Theorem C10_promote_unregistered_noop
    (dirOf : string → string) (now now' : Time) (addOK : string → bool)
    (nows : string → Time * Time) (addOKs : string → string → bool)
    (id : string) (tw : TieredWatcher) (m : Manager) :
  sessions tw !! id = None →
  map_Forall (λ _ w, sessions w !! id = None) (watchers m) →
  PromoteToHot dirOf now now' addOK id tw = tw ∧
  PromoteSession dirOf nows addOKs id m = m.
Proof.
  intros Htw Hm. split; [by apply PromoteToHot_unregistered|].
  destruct m as [ws ev cl]. unfold PromoteSession. simpl in *. f_equal.
  apply map_eq. intros k. rewrite map_lookup_imap.
  destruct (ws !! k) as [w|] eqn:Hk; simpl; [|done].
  f_equal. apply PromoteToHot_unregistered. by apply (Hm k w).
Qed.




Lemma C10_promote_unregistered_noop_witness :
  PromoteToHot sampleDir 200 201 allow "ghost" fullHot = fullHot ∧
  PromoteSession sampleDir (λ _, (200, 201)) (λ _, allow) "ghost"
    (AddWatcher "claude" fullHot NewManager) = AddWatcher "claude" fullHot NewManager.
Proof.
  apply C10_promote_unregistered_noop.
  - compute_done.
  - compute_done.
Defined.

(** The paths of [TieredWatcher] that keep the hot list within
    [MaxHotSessions]. *)
Lemma findOldest_lt m ids now :
  ids ≠ [] → (findOldest m ids 0 0 now < length ids)%nat.
Proof.
  intros Hne.
  destruct (findOldest_spec m ids 0 0 now) as [[-> _]|(j & e & ie & -> & Hj & _)].
  - destruct ids; [done|simpl; lia].
  - apply lookup_lt_Some in Hj. lia.
Qed.

Lemma PromoteToHot_bounded dirOf now now' addOK id tw :
  (length (hotIDs tw) ≤ MaxHotSessions)%nat →
  (length (hotIDs (PromoteToHot dirOf now now' addOK id tw)) ≤ MaxHotSessions)%nat.
Proof.
  intros Hle. unfold PromoteToHot.
  destruct (sessions tw !! id) as [info|]; [|done]. cbn zeta.
  case_decide; [done|]. rewrite watchSessionDir_hotIDs.
  case_decide as Hlen; cbn [hotIDs setHotIDs setSessions] in *.
  - rewrite demoteOldestLocked_hot. cbn [hotIDs setHotIDs setSessions sessions].
    rewrite length_delete.
    + rewrite length_app. simpl. lia.
    + apply lookup_lt_is_Some. apply findOldest_lt. by destruct (hotIDs tw).
  - lia.
Qed.

Lemma demoteInactive_bounded now tw :
  (length (hotIDs (demoteInactive now tw)) ≤ length (hotIDs tw))%nat.
Proof. unfold demoteInactive. simpl. apply length_filter. Qed.

Lemma RegisterSession_hotIDs stat id path tw :
  hotIDs (RegisterSession stat id path tw) = hotIDs tw.
Proof. unfold RegisterSession. by repeat case_match. Qed.

(** C1. The bound fails on the code: after two batch registrations, the
    second bringing three sessions more recent than all earlier ones,
    [autoPromoteRecentLocked] has appended three more IDs to a hot list that
    already held [MaxHotSessions], leaving six hot sessions. *)
Theorem C1_second_batch_overfills_hot_list :
  hotIDs twoBatches = ["c"; "b"; "a"; "f"; "e"; "d"] ∧
  (MaxHotSessions < length (hotIDs twoBatches))%nat.
Proof. split; [by vm_compute|]. vm_compute. lia. Qed.

(** Counterexample to C5: two files written 50 ms apart; once the loop has
    settled only the second has an event queued. *)
Lemma C5_one_event_per_path_fails :
  isBurst twoPaths ∧
  events (watchLoop sampleExt noStat twoPaths sampleNew)
    = [mkEvent EventMessageAdded "/sessions/b.jsonl"] ∧
  ¬ onePerPath sampleExt noStat twoPaths sampleNew.
Proof.
  split_and!.
  - vm_compute. intuition discriminate.
  - by vm_compute.
  - intros H. apply Forall_cons in H as [H _]. vm_compute in H. discriminate.
Qed.

Lemma burst_fold ext stat tw rest : ∀ prev ev0 lp,
  burstFrom prev rest →
  Forall (λ n, skipped ext tw n.2 = false) rest →
  foldl (onNotification ext stat) (mkLoop lp (Some (prev + debounceDelay, ev0)), tw) rest
  = (match last rest with
     | Some (t, e) => mkLoop (Name e) (Some (t + debounceDelay, e))
     | None => mkLoop lp (Some (prev + debounceDelay, ev0))
     end, tw).
Proof.
  induction rest as [|[t e] rest IH]; intros prev ev0 lp Hb Hs; [done|].
  destruct Hb as (Hle & Hlt & Hb). apply Forall_cons in Hs as [He Hs].
  cbn [foldl]. unfold onNotification at 2, advanceTo. cbn [debounceTimer].
  destruct (Z.leb_spec (prev + debounceDelay) t); [lia|].
  simpl in He. rewrite He. rewrite IH by done.
  rewrite last_cons. by destruct (last rest) as [[t' e']|].
Qed.

Lemma timerFires_events stat captured ls tw :
  (length (events tw) < eventsCap)%nat →
  events (timerFires stat captured ls tw) =
  events tw ++ match eventTypeOf (Op captured) with
               | Some ty => [mkEvent ty (extractID tw (lastPath ls))]
               | None => []
               end.
Proof.
  intros Hlen. unfold timerFires.
  assert (∀ tw', events tw' = events tw → extractID tw' = extractID tw →
    events (match eventTypeOf (Op captured) with
            | Some ty => trySend (mkEvent ty (extractID tw (lastPath ls))) tw'
            | None => tw'
            end) =
    events tw ++ match eventTypeOf (Op captured) with
                 | Some ty => [mkEvent ty (extractID tw (lastPath ls))]
                 | None => []
                 end) as Haux.
  { intros tw' Hev Hex. destruct (eventTypeOf (Op captured)).
    - unfold trySend. rewrite Hev. by rewrite decide_True.
    - by rewrite app_nil_r. }
  destruct (sessions tw !! extractID tw (lastPath ls)) as [info|];
    [destruct stat as [[mt sz]|]|]; by apply Haux.
Qed.

(** C5, amended. The consumer has one timer for all paths.  For a burst
    (each notification of a watched extension arriving less than 100 ms
    after the previous one) met with room in the queue, exactly the last
    notification decides what is queued once the loop settles: one event
    for the session of the last path — created for a create, message-added
    for a write, updated otherwise — and none when the last notification is
    a remove. *)
Theorem C5_burst_emits_for_last_path
    (ext : string → string) (stat : Time → string → option (Time * Z))
    (trace : list (Time * FsEvent)) (t : Time) (e : FsEvent) (tw : TieredWatcher) :
  last trace = Some (t, e) →
  isBurst trace →
  Forall (λ n, skipped ext tw n.2 = false) trace →
  (length (events tw) < eventsCap)%nat →
  events (watchLoop ext stat trace tw) =
  events tw ++ match eventTypeOf (Op e) with
               | Some ty => [mkEvent ty (extractID tw (Name e))]
               | None => []
               end.
Proof.
  intros Hlast Hb Hs Hlen.
  destruct trace as [|[t0 e0] rest]; [done|].
  apply Forall_cons in Hs as [He Hs]. simpl in Hb, He.
  unfold watchLoop. cbn [foldl]. unfold onNotification at 2, advanceTo, loopStart.
  cbn [debounceTimer]. rewrite He.
  rewrite (burst_fold ext stat tw rest t0 e0 (Name e0)) by done.
  destruct rest as [|n rest].
  - simpl in Hlast. inversion Hlast; subst. cbn [last settle debounceTimer lastPath].
    by rewrite timerFires_events.
  - rewrite last_cons_cons in Hlast. rewrite Hlast.
    cbn [settle debounceTimer lastPath]. by rewrite timerFires_events.
Qed.

Lemma C5_burst_emits_for_last_path_witness :
  events (watchLoop sampleExt noStat twoPaths sampleNew) =
  events sampleNew ++ [mkEvent EventMessageAdded "/sessions/b.jsonl"].
Proof.
  apply (C5_burst_emits_for_last_path sampleExt noStat twoPaths
           (1000 * Second + 50 * Millisecond)
           (mkFsEvent "/sessions/b.jsonl" Write) sampleNew).
  - reflexivity.
  - vm_compute. intuition discriminate.
  - repeat constructor.
  - vm_compute. lia.
Defined.

End WatcherProofs.

Module WorkspaceProofs.
Import Workspace.

Example claudeProjectDirName_doc :
  claudeProjectDirName "/Users/foo/my_project" = "-Users-foo-my-project".
Proof. reflexivity. Qed.

Example piProjectDir_doc :
  piProjectDir sampleLib "/home/u" "/home/user/project"
  = "/home/u/.pi/agent/sessions/--home-user-project--".
Proof. reflexivity. Qed.

Example TrimSpace_both_ends :
  TrimSpace ("  a b " +:+ String newline "") = "a b".
Proof. reflexivity. Qed.

Example Split_keeps_last_empty :
  Split newline ("x" +:+ String newline "y" +:+ String newline "") = ["x"; "y"; ""].
Proof. reflexivity. Qed.

Example scanLines_tokens :
  scanLines 100 ("x" +:+ String carriageReturn (String newline "y") +:+ String newline "")
  = ["x"; "y"].
Proof. reflexivity. Qed.

Example readTailLines_drops_partial_line :
  readTailLines (sampleFS [("/d", [mkSampleFile "/d/f" 0 ("abc" +:+ String newline "de")])])
    "/d/f" 4 = Some ["de"].
Proof. reflexivity. Qed.

Section Facts.
Variable lib : Library.

Lemma scanClaude_cons l rest :
  scanClaude lib (l :: rest) =
  match decodeLine lib l with
  | Some (ty, msg) =>
      if String.eqb ty "user" then (StatusActive, true)
      else if String.eqb ty "assistant" then
        if isPlaceholderAssistant msg then (StatusThinking, true)
        else if hasToolUse msg then (StatusWaiting, true)
        else (StatusDone, true)
      else scanClaude lib rest
  | None => scanClaude lib rest
  end.
Proof.
  unfold decodeLine. cbn [scanClaude].
  destruct (String.eqb (TrimSpace l) ""); [done|].
  destruct (unmarshalAny lib (TrimSpace l)) as [msg|]; [|done].
  by destruct (asString (jget "type" msg)).
Qed.

Lemma scanClaude_unrecognized l rest :
  unrecognized lib l → scanClaude lib (l :: rest) = scanClaude lib rest.
Proof.
  intros Hu. rewrite scanClaude_cons. unfold unrecognized in Hu.
  destruct (decodeLine lib l) as [[ty msg]|]; [|done].
  destruct Hu as [Hu Ha].
  apply String.eqb_neq in Hu, Ha. by rewrite Hu, Ha.
Qed.

Lemma scanClaude_skip skip rest :
  Forall (unrecognized lib) skip →
  scanClaude lib (skip ++ rest) = scanClaude lib rest.
Proof.
  induction 1 as [|l skip Hl _ IH]; [done|].
  cbn [app]. by rewrite scanClaude_unrecognized.
Qed.


Lemma getClaude_noRecognizedRole fs path :
  noRecognizedRole lib fs path → getClaudeSessionStatus lib fs path = notFound.
Proof.
  intros (lines & Hr & Hall). unfold getClaudeSessionStatus. rewrite Hr.
  rewrite <- (app_nil_r (rev lines)). rewrite scanClaude_skip; [done|].
  by apply List.Forall_rev.
Qed.

(** Whatever [scanClaude] reports as found is one of the four states. *)
Lemma scanClaude_found lines st :
  scanClaude lib lines = (st, true) →
  st = StatusActive ∨ st = StatusThinking ∨ st = StatusWaiting ∨ st = StatusDone.
Proof.
  induction lines as [|l lines IH]; [discriminate|].
  rewrite scanClaude_cons.
  destruct (decodeLine lib l) as [[ty msg]|]; [|done].
  repeat case_match; try done; intros [= <-]; auto.
Qed.

Lemma getClaude_found fs path st :
  getClaudeSessionStatus lib fs path = (st, true) →
  st = StatusActive ∨ st = StatusThinking ∨ st = StatusWaiting ∨ st = StatusDone.
Proof.
  unfold getClaudeSessionStatus.
  destruct (readTailLines fs path sessionStatusTailBytes); [|discriminate].
  apply scanClaude_found.
Qed.

Lemma claudeCandidates_skip fs now projectDir passed rest :
  Forall (λ g, (getClaudeSessionStatus lib fs g).2 = false) passed →
  claudeCandidates lib fs now projectDir (passed ++ rest)
  = claudeCandidates lib fs now projectDir rest.
Proof.
  induction 1 as [|f passed Hf _ IH]; [done|].
  cbn [app claudeCandidates].
  destruct (getClaudeSessionStatus lib fs f) as [st ok]. simpl in Hf. by subst ok.
Qed.

Lemma detectClaude_chosen fs now worktreePath projectDir f rest :
  chosenCandidate lib fs worktreePath projectDir f rest →
  detectClaudeSessionStatus lib fs now worktreePath
  = claudeCandidates lib fs now projectDir (f :: rest).
Proof.
  intros (home & absPath & passed & Hhome & Habs & -> & Hfind & Hpassed).
  unfold detectClaudeSessionStatus. rewrite Hhome, Habs, Hfind.
  rewrite <- (claudeCandidates_skip fs now _ passed (f :: rest) Hpassed).
  by destruct passed.
Qed.

(** The outcome of the loop at a candidate with a recognized entry. *)
Lemma claudeCandidates_found fs now projectDir f rest st :
  getClaudeSessionStatus lib fs f = (st, true) →
  claudeCandidates lib fs now projectDir (f :: rest) =
  if decide (st = StatusActive) then
    if isFileRecentlyModified fs now f claudeActivityThreshold
    then (StatusActive, true) else (StatusThinking, true)
  else if decide (st = StatusThinking) then (StatusThinking, true)
  else if isFileRecentlyModified fs now f claudeActivityThreshold
  then (StatusActive, true)
  else
    let sub := subagentStatus lib fs now (subagentsDirOf lib projectDir f)
                 claudeActivityThreshold in
    if sub.2 then (sub.1, true) else (st, true).
Proof.
  intros Hst. cbn [claudeCandidates]. rewrite Hst. cbn [negb].
  repeat case_decide; try done.
  destruct (isFileRecentlyModified fs now f claudeActivityThreshold); [done|].
  unfold subagentsDirOf.
  by destruct (subagentStatus lib fs now _ claudeActivityThreshold) as [s []].
Qed.

Lemma isFileRecentlyModified_stat fs now path info threshold :
  Stat fs path = Some info →
  isFileRecentlyModified fs now path threshold = bool_decide (now - ModTime info < threshold).
Proof.
  intros Hs. unfold isFileRecentlyModified. rewrite Hs.
  destruct (Z.ltb_spec (now - ModTime info) threshold).
  - by rewrite bool_decide_eq_true_2.
  - rewrite bool_decide_eq_false_2; [done|lia].
Qed.

End Facts.


Lemma toolUseBlock_not_blank b : toolUseBlock b = true → blankTextBlock b = false.
Proof.
  destruct b as [| | | | |o]; try done. simpl.
  destruct (jget "type" o) as [[| | |t| |]|]; try done.
  intros Ht%String.eqb_eq. by subst t.
Qed.








(** [subagentStatus] once the most recent sub-session file is known. *)
Lemma subagentStatus_spec lib fs now dir thr entries sub info :
  ReadDir fs dir = Some entries →
  (mostRecentWith lib ".jsonl" dir entries).1 = sub →
  sub ≠ "" →
  Stat fs sub = Some info →
  subagentStatus lib fs now dir thr =
  if bool_decide (now - ModTime info < subagentMaxStaleness) then
    match getClaudeSessionStatus lib fs sub with
    | (StatusActive, true) =>
        if bool_decide (now - ModTime info < thr)
        then (StatusActive, true) else (StatusThinking, true)
    | (StatusThinking, true) => (StatusThinking, true)
    | (StatusWaiting, true) | (StatusDone, true) =>
        if bool_decide (now - ModTime info < thr) then (StatusActive, true) else notFound
    | _ => notFound
    end
  else notFound.
Proof.
  intros Hrd Hsub Hne Hs. unfold subagentStatus. rewrite Hrd, Hsub.
  apply String.eqb_neq in Hne. rewrite Hne.
  rewrite !(isFileRecentlyModified_stat fs now sub info _ Hs).
  destruct (bool_decide (now - ModTime info < subagentMaxStaleness)); [|done].
  cbn [negb].
  destruct (getClaudeSessionStatus lib fs sub) as [st []]; cbn [negb]; [|by destruct st].
  by destruct st.
Qed.

(** C3, amended. Principal format, chosen candidate classified Waiting or
    Done and not modified within 5 s, most recent sub-session file [sub]:
    - untouched for 2 min or more: the parent's classification stands;
    - modified between 5 s and 2 min ago (10 s ago, say): the result is
      Thinking when the sub-session reads Active (last entry a user message)
      or Thinking (placeholder), and the parent's classification otherwise;
      it is never Active;
    - modified less than 5 s ago: Thinking for a placeholder, Active for any
      other recognized entry, the parent's classification when the
      sub-session has no recognized entry. *)
Theorem C3_subagent_override
    (lib : Library) (fs : FS) (now : Time) (worktreePath projectDir f : string)
    (rest : list string) (status : WorktreeStatus)
    (entries : list DirEntry) (sub : string) (info : FileInfo) :
  chosenCandidate lib fs worktreePath projectDir f rest →
  getClaudeSessionStatus lib fs f = (status, true) →
  status = StatusWaiting ∨ status = StatusDone →
  isFileRecentlyModified fs now f claudeActivityThreshold = false →
  ReadDir fs (subagentsDirOf lib projectDir f) = Some entries →
  (mostRecentWith lib ".jsonl" (subagentsDirOf lib projectDir f) entries).1 = sub →
  sub ≠ "" →
  Stat fs sub = Some info →
  (subagentMaxStaleness ≤ now - ModTime info →
   detectClaudeSessionStatus lib fs now worktreePath = (status, true)) ∧
  (claudeActivityThreshold ≤ now - ModTime info < subagentMaxStaleness →
   detectClaudeSessionStatus lib fs now worktreePath =
   match getClaudeSessionStatus lib fs sub with
   | (StatusActive, true) | (StatusThinking, true) => (StatusThinking, true)
   | _ => (status, true)
   end) ∧
  (now - ModTime info < claudeActivityThreshold →
   detectClaudeSessionStatus lib fs now worktreePath =
   match getClaudeSessionStatus lib fs sub with
   | (StatusThinking, true) => (StatusThinking, true)
   | (StatusActive, true) | (StatusWaiting, true) | (StatusDone, true) =>
       (StatusActive, true)
   | _ => (status, true)
   end).
Proof.
  intros Hc Hst Hwd Hstale Hrd Hsub Hne Hs.
  rewrite (detectClaude_chosen lib fs now _ _ _ _ Hc).
  rewrite (claudeCandidates_found lib fs now _ _ _ _ Hst).
  rewrite Hstale.
  rewrite decide_False by (destruct Hwd; by subst).
  rewrite decide_False by (destruct Hwd; by subst).
  cbn zeta.
  rewrite (subagentStatus_spec lib fs now _ _ entries sub info Hrd Hsub Hne Hs).
  assert (claudeActivityThreshold < subagentMaxStaleness) as Hthr by (by vm_compute).
  split_and!; intros Hage.
  - rewrite bool_decide_eq_false_2 by lia. done.
  - rewrite bool_decide_eq_true_2 by lia.
    rewrite bool_decide_eq_false_2 by lia.
    by destruct (getClaudeSessionStatus lib fs sub) as [[] []].
  - rewrite bool_decide_eq_true_2 by lia.
    rewrite bool_decide_eq_true_2 by lia.
    by destruct (getClaudeSessionStatus lib fs sub) as [[] []].
Qed.



(** Counterexample to C2: principal format, a single session file written
    2 s ago.  With a content that does not decode the result is not found;
    with a trailing placeholder it is Thinking.  Neither is Active. *)
Lemma C2_fresh_file_not_active :
  isFileRecentlyModified freshGarbage sampleNow (claudeDir +:+ "/s.jsonl")
    claudeActivityThreshold = true ∧
  detectClaudeSessionStatus sampleLib freshGarbage sampleNow "/w" = (StatusUnknown, false) ∧
  isFileRecentlyModified freshPlaceholder sampleNow (claudeDir +:+ "/s.jsonl")
    claudeActivityThreshold = true ∧
  detectClaudeSessionStatus sampleLib freshPlaceholder sampleNow "/w" = (StatusThinking, true).
Proof. by vm_compute. Qed.

(** C2, amended. The Pi and Codex classifiers return (Active, found) as
    soon as the located session file was modified less than 30 s ago,
    whatever its content.  The principal classifier reads the content first:
    a candidate without recognized role is passed over whatever its
    modification time, and the chosen candidate, when modified less than 5 s
    ago, gives Thinking for a trailing placeholder and Active for any other
    recognized entry. *)
Theorem C2_fast_path_by_format
    (lib : Library) (fs : FS) (now : Time) (worktreePath home absPath : string) :
  UserHomeDir fs = Some home →
  Abs fs worktreePath = Some absPath →
  (∀ f older,
     findRecentJSONLFiles lib fs (piProjectDir lib home absPath) "" = Some (f :: older) →
     isFileRecentlyModified fs now f sessionActivityThreshold = true →
     detectPiSessionStatus lib fs now worktreePath = (StatusActive, true)) ∧
  (∀ cs,
     let located :=
       findCodexSessionForPath lib fs now (Join lib [home; ".codex"; "sessions"]) absPath cs in
     located.1 ≠ "" →
     isFileRecentlyModified fs now located.1 sessionActivityThreshold = true →
     detectCodexSessionStatus lib fs now worktreePath cs = ((StatusActive, true), located.2)) ∧
  (∀ projectDir f rest,
     noRecognizedRole lib fs f →
     claudeCandidates lib fs now projectDir (f :: rest)
     = claudeCandidates lib fs now projectDir rest) ∧
  (∀ projectDir f rest st,
     chosenCandidate lib fs worktreePath projectDir f rest →
     getClaudeSessionStatus lib fs f = (st, true) →
     isFileRecentlyModified fs now f claudeActivityThreshold = true →
     detectClaudeSessionStatus lib fs now worktreePath =
     if decide (st = StatusThinking) then (StatusThinking, true) else (StatusActive, true)).
Proof.
  intros Hhome Habs. split_and!.
  - intros f older Hfind Hfresh. unfold detectPiSessionStatus.
    by rewrite Hhome, Habs, Hfind, Hfresh.
  - intros cs located Hne Hfresh. unfold detectCodexSessionStatus.
    rewrite Hhome, Habs. fold located.
    destruct located as [sessionFile cs']. simpl in *.
    apply String.eqb_neq in Hne. by rewrite Hne, Hfresh.
  - intros projectDir f rest Hnone.
    apply (claudeCandidates_skip lib fs now projectDir [f] rest).
    constructor; [|constructor]. by rewrite (getClaude_noRecognizedRole lib fs f).
  - intros projectDir f rest st Hc Hst Hfresh.
    rewrite (detectClaude_chosen lib fs now _ _ _ _ Hc).
    rewrite (claudeCandidates_found lib fs now _ _ _ _ Hst), Hfresh.
    by repeat case_decide; subst.
Qed.

(** C9. A lookup in the metadata cache hits only when the stored size and
    modification time both equal the live file's, and then returns the
    stored value; on any mismatch (a changed modification time with an
    unchanged size included) it misses and deletes the entry, and
    [getCodexSessionCWD] returns what a fresh scan of the file yields. *)
Theorem C9_cache_hit_requires_exact_match
    (lib : Library) (fs : FS) (now : Time) (path : string) (info : FileInfo)
    (c : gmap string codexSessionCwdCacheEntry) :
  (∀ dir c',
     cachedCodexSessionCWD now path info c = ((dir, true), c') →
     ∃ entry, c !! path = Some entry ∧ size_ entry = Size info ∧
              modTime entry = ModTime info ∧ dir = cwd entry) ∧
  (∀ entry,
     c !! path = Some entry →
     size_ entry = Size info → modTime entry = ModTime info →
     (cachedCodexSessionCWD now path info c).1 = (cwd entry, true)) ∧
  (∀ entry,
     c !! path = Some entry →
     ¬ (size_ entry = Size info ∧ modTime entry = ModTime info) →
     cachedCodexSessionCWD now path info c = (("", false), delete path c) ∧
     (getCodexSessionCWD lib fs now path info c).1 =
     match ReadAll fs path with
     | None => None
     | Some data => Some (default "" (firstSessionMeta lib (scanLines (1024 * 1024) data)))
     end).
Proof.
  split_and!.
  - intros dir c'. unfold cachedCodexSessionCWD.
    destruct (c !! path) as [entry|]; [|discriminate].
    destruct (Z.eqb_spec (size_ entry) (Size info)) as [Hs|]; [|discriminate].
    destruct (Z.eqb_spec (modTime entry) (ModTime info)) as [Hm|]; [|discriminate].
    simpl. intros [= <- <-]. by exists entry.
  - intros entry He Hs Hm. unfold cachedCodexSessionCWD.
    by rewrite He, Hs, Hm, !Z.eqb_refl.
  - intros entry He Hne.
    assert (cachedCodexSessionCWD now path info c = (("", false), delete path c)) as Hmiss.
    { unfold cachedCodexSessionCWD. rewrite He.
      destruct (Z.eqb_spec (size_ entry) (Size info)) as [Hs|]; [|done].
      destruct (Z.eqb_spec (modTime entry) (ModTime info)) as [Hm|]; [|done].
      by destruct Hne. }
    split; [done|]. unfold getCodexSessionCWD. rewrite Hmiss.
    destruct (ReadAll fs path) as [data|]; [|done].
    by destruct (firstSessionMeta lib (scanLines (1024 * 1024) data)).
Qed.

(** Counterexample to C3: the parent ends in a text-only assistant message
    a minute old, the only sub-session file was modified 10 s ago.  With a
    trailing user message in the sub-session the result is Thinking; with a
    trailing text-only assistant message it is the parent's Done.  Neither
    is Active. *)
Lemma C3_subagent_ten_seconds_not_active :
  getClaudeSessionStatus sampleLib (withSubagent (10 * Second) "user")
    (claudeDir +:+ "/p.jsonl") = (StatusDone, true) ∧
  isFileRecentlyModified (withSubagent (10 * Second) "user") sampleNow
    (claudeDir +:+ "/p.jsonl") claudeActivityThreshold = false ∧
  Stat (withSubagent (10 * Second) "user") (claudeDir +:+ "/p/subagents/agent-1.jsonl")
    = Some (mkFileInfo (sampleNow - 10 * Second) 4) ∧
  detectClaudeSessionStatus sampleLib (withSubagent (10 * Second) "user") sampleNow "/w"
    = (StatusThinking, true) ∧
  detectClaudeSessionStatus sampleLib (withSubagent (10 * Second) "assistant-text")
    sampleNow "/w" = (StatusDone, true).
Proof. by vm_compute. Qed.

Ltac sample_candidate passed :=
  exists "/home/u", "/w", passed; split_and!; [by vm_compute ..|].



Lemma C3_subagent_override_witness :
  detectClaudeSessionStatus sampleLib (withSubagent (3 * Minute) "user") sampleNow "/w"
    = (StatusDone, true) ∧
  detectClaudeSessionStatus sampleLib (withSubagent (10 * Second) "user") sampleNow "/w"
    = (StatusThinking, true) ∧
  detectClaudeSessionStatus sampleLib (withSubagent (2 * Second) "assistant-text")
    sampleNow "/w" = (StatusActive, true).
Proof.
  split_and!.
  - destruct (C3_subagent_override sampleLib (withSubagent (3 * Minute) "user")
                sampleNow "/w" claudeDir (claudeDir +:+ "/p.jsonl") [] StatusDone
                [entryOf (subFile (3 * Minute) "user")]
                (claudeDir +:+ "/p/subagents/agent-1.jsonl")
                (infoOf (subFile (3 * Minute) "user"))) as (Hold & _ & _).
    + sample_candidate (@nil string). constructor.
    + by vm_compute.
    + by right.
    + by vm_compute.
    + by vm_compute.
    + by vm_compute.
    + done.
    + by vm_compute.
    + apply Hold. compute_done.
  - destruct (C3_subagent_override sampleLib (withSubagent (10 * Second) "user")
                sampleNow "/w" claudeDir (claudeDir +:+ "/p.jsonl") [] StatusDone
                [entryOf (subFile (10 * Second) "user")]
                (claudeDir +:+ "/p/subagents/agent-1.jsonl")
                (infoOf (subFile (10 * Second) "user"))) as (_ & Hmid & _).
    + sample_candidate (@nil string). constructor.
    + by vm_compute.
    + by right.
    + by vm_compute.
    + by vm_compute.
    + by vm_compute.
    + done.
    + by vm_compute.
    + rewrite Hmid by compute_done. by vm_compute.
  - destruct (C3_subagent_override sampleLib (withSubagent (2 * Second) "assistant-text")
                sampleNow "/w" claudeDir (claudeDir +:+ "/p.jsonl") [] StatusDone
                [entryOf (subFile (2 * Second) "assistant-text")]
                (claudeDir +:+ "/p/subagents/agent-1.jsonl")
                (infoOf (subFile (2 * Second) "assistant-text"))) as (_ & _ & Hnew).
    + sample_candidate (@nil string). constructor.
    + by vm_compute.
    + by right.
    + by vm_compute.
    + by vm_compute.
    + by vm_compute.
    + done.
    + by vm_compute.
    + rewrite Hnew by compute_done. by vm_compute.
Defined.


Lemma C2_fast_path_by_format_witness :
  detectPiSessionStatus sampleLib freshPi sampleNow "/w" = (StatusActive, true) ∧
  (detectCodexSessionStatus sampleLib freshCodex sampleNow "/w" noCaches).1
    = (StatusActive, true).
Proof.
  split.
  - destruct (C2_fast_path_by_format sampleLib freshPi sampleNow "/w" "/home/u" "/w")
      as (Hpi & _); [done|done|].
    apply (Hpi (piDir +:+ "/s.jsonl") []); by vm_compute.
  - destruct (C2_fast_path_by_format sampleLib freshCodex sampleNow "/w" "/home/u" "/w")
      as (_ & Hcodex & _); [done|done|].
    rewrite (Hcodex noCaches); [done| |]; by vm_compute.
Defined.

Lemma C9_cache_hit_requires_exact_match_witness :
  cachedCodexSessionCWD sampleNow (codexDir +:+ "/rollout-1.jsonl") (mkFileInfo 200 7)
    sampleCwdCache
  = (("", false), delete (codexDir +:+ "/rollout-1.jsonl") sampleCwdCache) ∧
  (getCodexSessionCWD sampleLib freshCodex sampleNow (codexDir +:+ "/rollout-1.jsonl")
     (mkFileInfo 200 7) sampleCwdCache).1 = Some "/w".
Proof.
  destruct (C9_cache_hit_requires_exact_match sampleLib freshCodex sampleNow
              (codexDir +:+ "/rollout-1.jsonl") (mkFileInfo 200 7) sampleCwdCache)
    as (_ & _ & Hmiss).
  destruct (Hmiss (mkCwdCacheEntry "/stale" 100 7 50)) as [Hc Hg].
  - apply lookup_singleton_eq.
  - simpl. intros [_ Hm]. discriminate Hm.
  - split; [exact Hc|]. rewrite Hg. by vm_compute.
Defined.

End WorkspaceProofs.

Module WatcherInvariants.
Import TieredWatcher.

(** *** What each operation leaves alone *)

Lemma sameTier_refl i : sameTier i i.
Proof. done. Qed.

Lemma onlyRefreshes_refl tw : onlyRefreshes tw tw.
Proof.
  unfold onlyRefreshes. split_and!; try done.
  intros k. destruct (sessions tw !! k); constructor. done.
Qed.

Lemma onlyRefreshes_trans tw1 tw2 tw3 :
  onlyRefreshes tw1 tw2 → onlyRefreshes tw2 tw3 → onlyRefreshes tw1 tw3.
Proof.
  intros (H1 & H2 & H3 & H4 & H5 & H6 & H7 & H8 & H9)
         (G1 & G2 & G3 & G4 & G5 & G6 & G7 & G8 & G9).
  unfold onlyRefreshes. split_and!; try congruence.
  - by etrans.
  - auto.
  - intros k. specialize (H9 k). specialize (G9 k).
    destruct H9 as [i i' (A & B & C)|]; inversion G9 as [? i'' (A' & B' & C')|]; subst;
      constructor.
    unfold sameTier. split_and!; congruence.
Qed.

Lemma trySend_refreshes e tw : onlyRefreshes tw (trySend e tw).
Proof.
  unfold trySend. case_decide; [|apply onlyRefreshes_refl].
  unfold onlyRefreshes. cbn. split_and!; try done.
  - by apply prefix_app_r.
  - intros _. rewrite length_app. simpl. lia.
  - intros k. destruct (sessions tw !! k); constructor. done.
Qed.

Lemma setStat_refreshes tw k info mt sz :
  sessions tw !! k = Some info →
  onlyRefreshes tw (setSessions (<[k := setStat mt sz info]> (sessions tw)) tw).
Proof.
  intros Hk. unfold onlyRefreshes. cbn. split_and!; try done.
  intros k'. destruct (decide (k = k')) as [<-|Hne].
  - rewrite lookup_insert_eq, Hk. constructor. done.
  - rewrite lookup_insert_ne by done. destruct (sessions tw !! k'); constructor. done.
Qed.

Lemma pollOne_refreshes stat tw c : onlyRefreshes tw (pollOne stat tw c).
Proof.
  unfold pollOne. destruct (stat (ci_path c)) as [[mt sz]|]; [|apply onlyRefreshes_refl].
  destruct (fileChanged c mt sz); [|apply onlyRefreshes_refl].
  eapply onlyRefreshes_trans; [|apply trySend_refreshes].
  destruct (sessions tw !! ci_id c) eqn:E; [|apply onlyRefreshes_refl].
  by apply setStat_refreshes.
Qed.

Lemma foldl_refreshes {A} (f : TieredWatcher → A → TieredWatcher) l :
  (∀ tw a, onlyRefreshes tw (f tw a)) →
  ∀ tw, onlyRefreshes tw (foldl f tw l).
Proof.
  intros Hf. induction l as [|a l IH]; intros tw; [apply onlyRefreshes_refl|].
  simpl. eapply onlyRefreshes_trans; [apply Hf|apply IH].
Qed.

Lemma pollColdSessions_refreshes stat tw : onlyRefreshes tw (pollColdSessions stat tw).
Proof. unfold pollColdSessions. apply foldl_refreshes, pollOne_refreshes. Qed.

Lemma timerFires_refreshes stat captured ls tw :
  onlyRefreshes tw (timerFires stat captured ls tw).
Proof.
  unfold timerFires.
  set (tw1 := match sessions tw !! extractID tw (lastPath ls) with
              | Some info => match stat with
                             | Some (mt, sz) => _
                             | None => tw
                             end
              | None => tw
              end).
  assert (onlyRefreshes tw tw1) as H1.
  { unfold tw1. destruct (sessions tw !! extractID tw (lastPath ls)) eqn:E;
      [|apply onlyRefreshes_refl].
    destruct stat as [[mt sz]|]; [|apply onlyRefreshes_refl].
    by apply setStat_refreshes. }
  destruct (eventTypeOf (Op captured)); [|done].
  eapply onlyRefreshes_trans; [exact H1|apply trySend_refreshes].
Qed.

Lemma advanceTo_refreshes stat t st : onlyRefreshes st.2 (advanceTo stat t st).2.
Proof.
  destruct st as [ls tw]. unfold advanceTo.
  destruct (debounceTimer ls) as [[deadline captured]|]; [|apply onlyRefreshes_refl].
  destruct (deadline <=? t); [|apply onlyRefreshes_refl].
  apply timerFires_refreshes.
Qed.

Lemma onNotification_refreshes ext stat st n :
  onlyRefreshes st.2 (onNotification ext stat st n).2.
Proof.
  destruct n as [t event]. unfold onNotification.
  pose proof (advanceTo_refreshes stat t st) as H.
  destruct (advanceTo stat t st) as [ls tw]. by destruct (skipped ext tw event).
Qed.

Lemma notifications_refresh ext stat trace : ∀ st,
  onlyRefreshes st.2 (foldl (onNotification ext stat) st trace).2.
Proof.
  induction trace as [|n trace IH]; intros st; [apply onlyRefreshes_refl|].
  simpl. eapply onlyRefreshes_trans; [apply onNotification_refreshes|apply IH].
Qed.

Lemma settle_refreshes stat st : onlyRefreshes st.2 (settle stat st).
Proof.
  destruct st as [ls tw]. unfold settle.
  destruct (debounceTimer ls) as [[deadline captured]|]; [|apply onlyRefreshes_refl].
  apply timerFires_refreshes.
Qed.

Lemma watchLoop_refreshes ext stat trace tw : onlyRefreshes tw (watchLoop ext stat trace tw).
Proof.
  unfold watchLoop.
  eapply onlyRefreshes_trans; [|apply settle_refreshes].
  apply (notifications_refresh ext stat trace (loopStart, tw)).
Qed.

(** *** How the state evolves under each operation *)

Lemma evolves_refl tw : evolves tw tw.
Proof. split_and!; [|done|done]. intros k i Hk. by exists i. Qed.

Lemma evolves_trans tw1 tw2 tw3 : evolves tw1 tw2 → evolves tw2 tw3 → evolves tw1 tw3.
Proof.
  intros (H1 & H2 & H3) (G1 & G2 & G3). split_and!.
  - intros k i Hk. destruct (H1 k i Hk) as (i' & Hk' & A & B).
    destruct (G1 k i' Hk') as (i'' & Hk'' & A' & B').
    exists i''. split; [done|]. split; congruence.
  - by etrans.
  - auto.
Qed.

Lemma onlyRefreshes_evolves tw tw' : onlyRefreshes tw tw' → evolves tw tw'.
Proof.
  intros (_ & Hw & _ & _ & _ & _ & _ & Hq & Hs). split_and!; [|by rewrite Hw|done].
  intros k i Hk. specialize (Hs k). rewrite Hk in Hs.
  inversion Hs as [? i' (A & B & C)|]; subst. exists i'. by split.
Qed.

Lemma registerAll_keeps batch : ∀ m k i,
  m !! k = Some i → registerAll batch m !! k = Some i.
Proof.
  induction batch as [|s batch IH]; intros m k i Hk; [done|].
  simpl. apply IH. destruct (m !! ID s) eqn:E; [done|].
  rewrite lookup_insert_ne; [done|]. intros <-. congruence.
Qed.

Lemma watchSessionDir_grows dirOf addOK info tw :
  watchDirs tw ⊆ watchDirs (watchSessionDir dirOf addOK info tw).
Proof.
  unfold watchSessionDir. case_decide; [done|].
  destruct (addOK _); [|done]. cbn. intros x Hx. apply elem_of_union. by right.
Qed.

Lemma watchSessionDir_events dirOf addOK info tw :
  events (watchSessionDir dirOf addOK info tw) = events tw.
Proof. unfold watchSessionDir. by repeat case_match. Qed.

Lemma RegisterSession_evolves stat id path tw :
  evolves tw (RegisterSession stat id path tw).
Proof.
  unfold RegisterSession. destruct (sessions tw !! id) eqn:E; [apply evolves_refl|].
  split_and!; [|done|done]. intros k i Hk. exists i. split; [|done].
  cbn. rewrite lookup_insert_ne; [done|]. intros <-. congruence.
Qed.

Lemma promoteTop_evolves dirOf nows addOK fuel : ∀ i sorted tw,
  evolves tw (promoteTop dirOf fuel i sorted nows addOK tw).
Proof.
  induction fuel as [|fuel IH]; intros i sorted tw; [apply evolves_refl|].
  destruct sorted as [|s rest]; [apply evolves_refl|].
  cbn [promoteTop]. destruct (sessions tw !! st_id s) as [info|] eqn:E;
    [|apply evolves_refl].
  eapply evolves_trans; [|apply IH].
  split_and!.
  - intros k i0 Hk. rewrite WatcherProofs.watchSessionDir_sessions.
    assert (∃ i', <[st_id s:=setLastHot (nows i) info]> (sessions tw) !! k = Some i'
                  ∧ sameSession i0 i') as Hgoal.
    { destruct (decide (st_id s = k)) as [<-|Hne].
      - rewrite lookup_insert_eq. eexists. split; [done|].
        rewrite E in Hk. by inversion Hk.
      - rewrite lookup_insert_ne by done. by exists i0. }
    by case_decide.
  - etrans; [|apply watchSessionDir_grows]. by case_decide.
  - rewrite watchSessionDir_events. by case_decide.
Qed.

Lemma RegisterSessionsWith_evolves dirOf sorted nows addOK batch tw :
  evolves tw (RegisterSessionsWith dirOf sorted nows addOK batch tw).
Proof.
  unfold RegisterSessionsWith, autoPromoteRecentLocked.
  eapply evolves_trans with (setSessions (registerAll batch (sessions tw)) tw).
  - split_and!; [|done|done]. intros k i Hk. exists i. split; [|done].
    cbn. by apply registerAll_keeps.
  - case_decide; [apply evolves_refl|apply promoteTop_evolves].
Qed.

Lemma PromoteToHot_evolves dirOf now now' addOK id tw :
  evolves tw (PromoteToHot dirOf now now' addOK id tw).
Proof.
  split_and!.
  - intros k i Hk. rewrite WatcherProofs.PromoteToHot_sessions.
    destruct (sessions tw !! id) as [info|] eqn:E; [|by exists i].
    destruct (decide (id = k)) as [<-|Hne].
    + rewrite lookup_insert_eq. eexists. split; [done|].
      rewrite E in Hk. by inversion Hk.
    + rewrite lookup_insert_ne by done. by exists i.
  - unfold PromoteToHot. destruct (sessions tw !! id) as [info|]; [|done].
    cbn zeta. case_decide; [done|].
    etrans; [|apply watchSessionDir_grows].
    case_decide; [|done]. unfold demoteOldestLocked. by case_match.
  - unfold PromoteToHot. destruct (sessions tw !! id) as [info|]; [|done].
    cbn zeta. case_decide; [done|]. rewrite watchSessionDir_events.
    case_decide; [|done]. unfold demoteOldestLocked. by case_match.
Qed.

Lemma step_evolves dirOf ext tw op : evolves tw (step dirOf ext tw op).
Proof.
  destruct op; simpl.
  - apply RegisterSession_evolves.
  - apply RegisterSessionsWith_evolves.
  - apply PromoteToHot_evolves.
  - split_and!; [|done|done]. intros k i Hk. by exists i.
  - apply onlyRefreshes_evolves, pollColdSessions_refreshes.
  - apply onlyRefreshes_evolves, watchLoop_refreshes.
Qed.

Lemma run_evolves dirOf ext ops : ∀ tw, evolves tw (run dirOf ext ops tw).
Proof.
  induction ops as [|op ops IH]; intros tw; [apply evolves_refl|].
  simpl. eapply evolves_trans; [apply step_evolves|apply IH].
Qed.

(** *** The hot list stays well formed *)

Lemma hotWellFormed_sub tw tw' :
  hotWellFormed tw →
  hotIDs tw' `sublist_of` hotIDs tw →
  (∀ k, is_Some (sessions tw !! k) → is_Some (sessions tw' !! k)) →
  hotWellFormed tw'.
Proof.
  intros [Hnd Hreg] Hsub Hs. split.
  - by eapply sublist_NoDup.
  - rewrite Forall_forall in *. intros h Hh. apply Hs, Hreg.
    by eapply elem_of_sublist.
Qed.

Lemma evolves_is_Some tw tw' k :
  evolves tw tw' → is_Some (sessions tw !! k) → is_Some (sessions tw' !! k).
Proof. intros (H & _) [i Hk]. destruct (H k i Hk) as (i' & Hk' & _). by eexists. Qed.

Lemma hotWellFormed_snoc tw tw' id :
  hotWellFormed tw →
  id ∉ hotIDs tw → is_Some (sessions tw' !! id) →
  hotIDs tw' = hotIDs tw ++ [id] →
  (∀ k, is_Some (sessions tw !! k) → is_Some (sessions tw' !! k)) →
  hotWellFormed tw'.
Proof.
  intros [Hnd Hreg] Hnew Hid Hh Hs. split; rewrite Hh.
  - apply NoDup_app. split_and!; [done| |apply NoDup_singleton].
    intros x Hx ->%list_elem_of_singleton. done.
  - apply Forall_app. split; [|by repeat constructor].
    eapply Forall_impl; [exact Hreg|]. intros h. apply Hs.
Qed.

Lemma promoteTop_wf dirOf nows addOK fuel : ∀ i sorted tw,
  hotWellFormed tw → hotWellFormed (promoteTop dirOf fuel i sorted nows addOK tw).
Proof.
  induction fuel as [|fuel IH]; intros i sorted tw Hwf; [done|].
  destruct sorted as [|s rest]; [done|].
  cbn [promoteTop]. destruct (sessions tw !! st_id s) as [info|] eqn:E; [|done].
  apply IH.
  assert (∀ k, is_Some (sessions tw !! k) →
               is_Some (<[st_id s:=setLastHot (nows i) info]> (sessions tw) !! k)) as Hs.
  { intros k Hk. apply lookup_insert_is_Some'. by right. }
  case_decide as Hin; cbn [hotIDs setSessions setHotIDs] in Hin.
  - eapply hotWellFormed_sub; [exact Hwf| |].
    + by rewrite WatcherProofs.watchSessionDir_hotIDs.
    + intros k Hk. rewrite WatcherProofs.watchSessionDir_sessions. by apply Hs.
  - eapply (hotWellFormed_snoc tw _ (st_id s)); [exact Hwf|exact Hin| | |].
    + rewrite WatcherProofs.watchSessionDir_sessions. cbn.
      apply lookup_insert_is_Some'. by left.
    + by rewrite WatcherProofs.watchSessionDir_hotIDs.
    + intros k Hk. rewrite WatcherProofs.watchSessionDir_sessions. by apply Hs.
Qed.

Lemma PromoteToHot_wf dirOf now now' addOK id tw :
  hotWellFormed tw → hotWellFormed (PromoteToHot dirOf now now' addOK id tw).
Proof.
  intros Hwf.
  pose proof (PromoteToHot_evolves dirOf now now' addOK id tw) as Hev.
  unfold PromoteToHot in *. destruct (sessions tw !! id) as [info|] eqn:E; [|done].
  cbn zeta in *. case_decide as Hin; cbn [hotIDs setSessions] in Hin.
  - eapply hotWellFormed_sub; [exact Hwf|done|]. intros k. by apply evolves_is_Some.
  - set (tw1 := setHotIDs (hotIDs tw ++ [id])
                  (setSessions (<[id:=setLastHot now info]> (sessions tw)) tw)) in *.
    assert (hotWellFormed tw1) as Hwf1.
    { apply (hotWellFormed_snoc tw tw1 id); try done.
      - cbn. apply lookup_insert_is_Some'. by left.
      - intros k Hk. cbn. apply lookup_insert_is_Some'. by right. }
    eapply hotWellFormed_sub; [exact Hwf1| |].
    + rewrite WatcherProofs.watchSessionDir_hotIDs. case_decide; [|done].
      rewrite WatcherProofs.demoteOldestLocked_hot. apply sublist_delete.
    + intros k Hk. rewrite WatcherProofs.watchSessionDir_sessions.
      case_decide; [|done]. by rewrite WatcherProofs.demoteOldestLocked_sessions.
Qed.

Lemma step_wf dirOf ext tw op : hotWellFormed tw → hotWellFormed (step dirOf ext tw op).
Proof.
  intros Hwf. destruct op; simpl.
  - eapply hotWellFormed_sub; [exact Hwf|by rewrite WatcherProofs.RegisterSession_hotIDs|].
    intros k. apply evolves_is_Some, RegisterSession_evolves.
  - unfold RegisterSessionsWith, autoPromoteRecentLocked.
    assert (hotWellFormed (setSessions (registerAll batch (sessions tw)) tw)) as Hwf'.
    { eapply hotWellFormed_sub; [exact Hwf|done|].
      intros k [i Hk]. exists i. cbn. by apply registerAll_keeps. }
    case_decide; [done|]. by apply promoteTop_wf.
  - by apply PromoteToHot_wf.
  - eapply hotWellFormed_sub; [exact Hwf| |done].
    unfold demoteInactive. cbn. apply sublist_filter.
  - destruct (pollColdSessions_refreshes stat tw) as (Hh & _).
    eapply hotWellFormed_sub; [exact Hwf|by rewrite Hh|].
    intros k. apply evolves_is_Some, onlyRefreshes_evolves, pollColdSessions_refreshes.
  - destruct (watchLoop_refreshes ext stat trace tw) as (Hh & _).
    eapply hotWellFormed_sub; [exact Hwf|by rewrite Hh|].
    intros k. apply evolves_is_Some, onlyRefreshes_evolves, watchLoop_refreshes.
Qed.

Lemma run_wf dirOf ext ops : ∀ tw,
  hotWellFormed tw → hotWellFormed (run dirOf ext ops tw).
Proof.
  induction ops as [|op ops IH]; intros tw Hwf; [done|].
  simpl. by apply IH, step_wf.
Qed.

Lemma New_wf root pattern extract : hotWellFormed (New root pattern extract).
Proof. split; constructor. Qed.

(** X1. Whatever calls a fresh watcher receives, in whatever order, its
    hot list names only registered sessions and names none twice. *)
Theorem X1_hot_list_stays_well_formed
    (dirOf ext : string → string) (ops : list Call)
    (root pattern : string) (extract : string → string) :
  hotWellFormed (run dirOf ext ops (New root pattern extract)).
Proof. apply run_wf, New_wf. Qed.

(** X2. No call removes a session or changes the ID or path it was
    registered under. *)
Theorem X2_sessions_are_never_removed
    (dirOf ext : string → string) (ops : list Call) (tw : TieredWatcher)
    (k : string) (i : SessionInfo) :
  sessions tw !! k = Some i →
  ∃ i', sessions (run dirOf ext ops tw) !! k = Some i' ∧ ID i' = ID i ∧ Path i' = Path i.
Proof.
  intros Hk. destruct (run_evolves dirOf ext ops tw) as (H & _).
  destruct (H k i Hk) as (i' & Hk' & A & B). by exists i'.
Qed.

Lemma X2_sessions_are_never_removed_witness :
  ∃ i', sessions (run sampleDir sampleExt singleCalls fullHot) !! "d" = Some i' ∧
        ID i' = "d" ∧ Path i' = "/sessions/d.jsonl".
Proof.
  apply (X2_sessions_are_never_removed sampleDir sampleExt singleCalls fullHot "d"
           (sampleInfo "d" 1)).
  by vm_compute.
Defined.

(** X3. The queue of a watcher never holds more than its capacity of 32
    events: a send into a full queue is dropped. *)
Theorem X3_event_queue_stays_within_capacity
    (dirOf ext : string → string) (ops : list Call)
    (root pattern : string) (extract : string → string) :
  (length (events (run dirOf ext ops (New root pattern extract))) ≤ eventsCap)%nat.
Proof.
  destruct (run_evolves dirOf ext ops (New root pattern extract)) as (_ & _ & H).
  apply H. simpl. unfold eventsCap. lia.
Qed.

(** X4. A directory once watched stays watched through every call; the root
    directory of a fresh watcher is watched for its whole life. *)
Theorem X4_watched_directories_only_grow
    (dirOf ext : string → string) (ops : list Call) :
  (∀ tw, watchDirs tw ⊆ watchDirs (run dirOf ext ops tw)) ∧
  (∀ root pattern extract,
     root ∈ watchDirs (run dirOf ext ops (New root pattern extract))).
Proof.
  split.
  - intros tw. by destruct (run_evolves dirOf ext ops tw) as (_ & H & _).
  - intros root pattern extract.
    destruct (run_evolves dirOf ext ops (New root pattern extract)) as (_ & H & _).
    apply H. cbn. by apply elem_of_singleton.
Qed.

Lemma step_bounded dirOf ext tw op :
  isBatch op = false →
  (length (hotIDs tw) ≤ MaxHotSessions)%nat →
  (length (hotIDs (step dirOf ext tw op)) ≤ MaxHotSessions)%nat.
Proof.
  intros Hb Hle. destruct op; simpl; try done.
  - by rewrite WatcherProofs.RegisterSession_hotIDs.
  - by apply WatcherProofs.PromoteToHot_bounded.
  - etrans; [apply WatcherProofs.demoteInactive_bounded|done].
  - destruct (pollColdSessions_refreshes stat tw) as (-> & _). done.
  - destruct (watchLoop_refreshes ext stat trace tw) as (-> & _). done.
Qed.

(** X5. Without batch registration the cap holds: single registrations,
    promotions, demotion sweeps, polls and notifications never take a hot
    list of at most [MaxHotSessions] beyond it. *)
Theorem X5_cap_holds_without_batch_registration
    (dirOf ext : string → string) (ops : list Call) (tw : TieredWatcher) :
  forallb (λ op, negb (isBatch op)) ops = true →
  (length (hotIDs tw) ≤ MaxHotSessions)%nat →
  (length (hotIDs (run dirOf ext ops tw)) ≤ MaxHotSessions)%nat.
Proof.
  revert tw. induction ops as [|op ops IH]; intros tw Hops Hle; [done|].
  simpl in Hops. apply andb_true_iff in Hops as [Hop Hops].
  simpl. apply IH; [done|]. apply step_bounded; [|done].
  by destruct (isBatch op).
Qed.

Lemma X5_cap_holds_without_batch_registration_witness :
  (length (hotIDs (run sampleDir sampleExt singleCalls fullHot)) ≤ MaxHotSessions)%nat.
Proof.
  apply X5_cap_holds_without_batch_registration.
  - reflexivity.
  - vm_compute. lia.
Defined.

Lemma NoDup_fst_filter {A B} (P : A * B → Prop) `{∀ x, Decision (P x)}
    (l : list (A * B)) :
  NoDup l.*1 → NoDup (filter P l).*1.
Proof.
  induction l as [|x l IH]; [done|]. rewrite fmap_cons, NoDup_cons.
  intros [Hx Hl]. rewrite filter_cons. case_decide; [|by apply IH].
  rewrite fmap_cons, NoDup_cons. split; [|by apply IH].
  intros (y & Hy & Hin%list_elem_of_filter)%list_elem_of_fmap.
  apply Hx, list_elem_of_fmap. exists y. tauto.
Qed.

Lemma length_coldToCheck tw :
  hotWellFormed tw →
  (length (coldToCheck tw) + length (hotIDs tw) = size (sessions tw))%nat.
Proof.
  intros [Hnd Hreg]. unfold coldToCheck.
  rewrite <- (length_map_to_list (sessions tw)).
  pose proof (NoDup_fst_map_to_list (sessions tw)) as Hkeys.
  assert (Hin : ∀ h, h ∈ hotIDs tw → h ∈ (map_to_list (sessions tw)).*1).
  { intros h Hh. rewrite Forall_forall in Hreg. destruct (Hreg h Hh) as [i Hi].
    apply list_elem_of_fmap. exists (h, i). split; [done|].
    by apply elem_of_map_to_list. }
  revert Hkeys Hin. generalize (map_to_list (sessions tw)). intros l Hkeys Hin.
  set (P := λ kv : string * SessionInfo, kv.1 ∈ hotIDs tw).
  assert (length (omap (λ kv, if decide (kv.1 ∈ hotIDs tw) then None
            else Some (mkCheckInfo kv.1 (Path kv.2) (ModTime kv.2) (FileSize kv.2))) l)
          = length (filter (λ kv, ¬ P kv) l)) as ->.
  { clear. induction l as [|kv l IH]; [done|]. cbn [omap list_omap].
    rewrite filter_cons. unfold P at 1. destruct (decide (kv.1 ∈ hotIDs tw)).
    - rewrite decide_False by tauto. apply IH.
    - rewrite decide_True by done. simpl. by rewrite <- IH. }
  assert (length (filter P l) = length (hotIDs tw)) as <-.
  { rewrite <- (length_fmap fst). apply Permutation_length.
    apply NoDup_Permutation; [|done|].
    - by apply NoDup_fst_filter.
    - intros x. rewrite list_elem_of_fmap. split.
      + intros ([k v] & -> & Hf). by apply list_elem_of_filter in Hf as [Hp _].
      + intros Hx. pose proof (Hin x Hx) as Hx'.
        apply list_elem_of_fmap in Hx' as ([k v] & -> & Hkv).
        exists (k, v). split; [done|]. by apply list_elem_of_filter. }
  rewrite Nat.add_comm, <- length_app. apply Permutation_length.
  apply filter_app_complement.
Qed.

(** X6. For a fresh watcher under any calls, the cold count of [Stats] is
    the number of sessions the poller checks; it is never negative, and the
    hot and cold counts add up to the number of registered sessions. *)
Theorem X6_stats_count_hot_and_cold
    (dirOf ext : string → string) (ops : list Call)
    (root pattern : string) (extract : string → string) :
  let tw := run dirOf ext ops (New root pattern extract) in
  let '(hotCount, coldCount, _) := Stats tw in
  coldCount = Z.of_nat (length (coldToCheck tw)) ∧ 0 ≤ coldCount ∧
  hotCount + coldCount = Z.of_nat (size (sessions tw)).
Proof.
  intros tw. unfold Stats.
  pose proof (length_coldToCheck tw (run_wf dirOf ext ops _ (New_wf root pattern extract))).
  lia.
Qed.

(** *** The poller *)

Lemma trySend_sessions e tw : sessions (trySend e tw) = sessions tw.
Proof. unfold trySend. by case_decide. Qed.

Lemma elem_of_coldToCheck tw c :
  c ∈ coldToCheck tw ↔
  (ci_id c ∉ hotIDs tw) ∧ ∃ info, sessions tw !! ci_id c = Some info ∧ checks c info.
Proof.
  unfold coldToCheck. rewrite list_elem_of_omap. split.
  - intros ([k info] & Hkv & Hf). apply elem_of_map_to_list in Hkv.
    simpl in Hf. case_decide; [done|]. inversion Hf; subst. simpl.
    split; [done|]. by exists info.
  - intros (Hcold & info & Hk & Hp & Hm & Hs). exists (ci_id c, info).
    split; [by apply elem_of_map_to_list|]. simpl. rewrite decide_False by done.
    destruct c. simpl in *. by subst.
Qed.

Lemma NoDup_coldToCheck tw : NoDup (ci_id <$> coldToCheck tw).
Proof.
  unfold coldToCheck. pose proof (NoDup_fst_map_to_list (sessions tw)) as Hnd.
  revert Hnd. generalize (map_to_list (sessions tw)). intros l.
  induction l as [|[k v] l IH]; [constructor|].
  rewrite fmap_cons, NoDup_cons. intros [Hk Hl]. cbn [omap list_omap]. simpl.
  case_decide; [by apply IH|]. rewrite fmap_cons, NoDup_cons. split; [|by apply IH].
  simpl. intros (c & Hc & Hin)%list_elem_of_fmap.
  apply list_elem_of_omap in Hin as ([k' v'] & Hin & Hf). simpl in Hf.
  case_decide; [done|]. inversion Hf; subst. simpl in *.
  apply Hk, list_elem_of_fmap. by exists (k', v').
Qed.

Lemma pollOne_sessions stat tw c info k :
  sessions tw !! ci_id c = Some info → checks c info →
  sessions (pollOne stat tw c) !! k =
  if decide (k = ci_id c) then Some (polled stat info) else sessions tw !! k.
Proof.
  intros Hc (Hp & Hm & Hs). unfold pollOne, polled, fileChanged.
  rewrite Hp, Hm, Hs.
  destruct (stat (Path info)) as [[mt sz]|]; [|by case_decide; subst].
  destruct ((ModTime info <? mt) || negb (sz =? FileSize info));
    [|by case_decide; subst].
  rewrite trySend_sessions, Hc. cbn.
  case_decide; subst; [by rewrite lookup_insert_eq|by rewrite lookup_insert_ne].
Qed.

Lemma pollFold_sessions stat l : ∀ tw,
  NoDup (ci_id <$> l) →
  (∀ c, c ∈ l → ∃ info, sessions tw !! ci_id c = Some info ∧ checks c info) →
  ∀ k, sessions (foldl (pollOne stat) tw l) !! k =
       if decide (k ∈ ci_id <$> l) then polled stat <$> sessions tw !! k
       else sessions tw !! k.
Proof.
  induction l as [|c l IH]; intros tw Hnd Hl k.
  { destruct (decide _) as [Hin|]; [|done]. by apply elem_of_nil in Hin. }
  rewrite fmap_cons in Hnd. apply NoDup_cons in Hnd as [Hc Hnd].
  destruct (Hl c) as (info & Hinfo & Hchk); [by left|].
  assert (∀ k', sessions (pollOne stat tw c) !! k' =
                if decide (k' = ci_id c) then Some (polled stat info)
                else sessions tw !! k') as Hone
    by (intros k'; by apply pollOne_sessions).
  cbn [foldl]. rewrite IH; [|done|].
  - rewrite fmap_cons, Hone.
    destruct (decide (k ∈ ci_id <$> l)) as [Hin|Hnin];
      destruct (decide (k = ci_id c)) as [->|Hne];
      destruct (decide (_ ∈ _ :: _)) as [Hin'|Hnin']; try done.
    + exfalso. apply Hnin'. by right.
    + by rewrite Hinfo.
    + exfalso. apply Hnin'. by left.
    + by apply elem_of_cons in Hin' as [?|?].
  - intros c' Hc'. destruct (Hl c') as (info' & Hinfo' & Hchk'); [by right|].
    exists info'. split; [|done]. rewrite Hone.
    destruct (decide _) as [Heq|]; [|done]. exfalso. apply Hc. rewrite <- Heq.
    apply list_elem_of_fmap. by exists c'.
Qed.

Lemma poll_sessions stat tw k :
  sessions (pollColdSessions stat tw) !! k =
  match sessions tw !! k with
  | Some info => Some (if decide (k ∈ hotIDs tw) then info else polled stat info)
  | None => None
  end.
Proof.
  unfold pollColdSessions.
  rewrite (pollFold_sessions stat (coldToCheck tw) tw (NoDup_coldToCheck tw)).
  - destruct (decide (k ∈ ci_id <$> coldToCheck tw)) as [Hin|Hnin].
    + apply list_elem_of_fmap in Hin as (c & -> & Hc).
      apply elem_of_coldToCheck in Hc as (Hcold & info & Hinfo & _).
      rewrite Hinfo. simpl. by destruct (decide _).
    + destruct (sessions tw !! k) as [info|] eqn:E; [|done].
      destruct (decide (k ∈ hotIDs tw)) as [|Hcold]; [done|]. exfalso. apply Hnin.
      apply list_elem_of_fmap.
      exists (mkCheckInfo k (Path info) (ModTime info) (FileSize info)).
      split; [done|]. apply elem_of_coldToCheck. simpl. split; [done|].
      by exists info.
  - intros c Hc. by apply elem_of_coldToCheck in Hc as (_ & H).
Qed.

Lemma polled_settled stat info mt sz :
  stat (Path info) = Some (mt, sz) →
  (ModTime (polled stat info) <? mt) || negb (sz =? FileSize (polled stat info)) = false.
Proof.
  intros Hs. unfold polled. rewrite Hs.
  destruct ((ModTime info <? mt) || negb (sz =? FileSize info)) eqn:E; [|done].
  simpl. by rewrite Z.ltb_irrefl, Z.eqb_refl.
Qed.

Lemma polled_Path stat info : Path (polled stat info) = Path info.
Proof. unfold polled. by repeat case_match. Qed.

Lemma foldl_fixed {A B} (f : A → B → A) (l : list B) (a : A) :
  (∀ b x, b ∈ l → f x b = x) → foldl f a l = a.
Proof.
  induction l as [|b l IH]; intros Hf; [done|].
  simpl. rewrite Hf by (by left). apply IH. intros b' x Hb'. apply Hf. by right.
Qed.

(** X7. Polling is idempotent on an unchanged file system: a second run of
    the poller against the same files finds nothing changed, refreshes
    nothing and queues nothing. *)
Theorem X7_poll_twice_is_poll_once
    (stat : string → option (Time * Z)) (tw : TieredWatcher) :
  pollColdSessions stat (pollColdSessions stat tw) = pollColdSessions stat tw.
Proof.
  set (tw' := pollColdSessions stat tw).
  unfold pollColdSessions at 1. apply foldl_fixed.
  intros c x Hc. apply elem_of_coldToCheck in Hc as (Hcold & info' & Hinfo' & Hp & Hm & Hs).
  destruct (pollColdSessions_refreshes stat tw) as (Hh & _). fold tw' in Hh.
  unfold tw' in Hinfo'. rewrite poll_sessions in Hinfo'.
  destruct (sessions tw !! ci_id c) as [info|]; [|done].
  rewrite Hh in Hcold. rewrite decide_False in Hinfo' by done.
  inversion Hinfo'; subst info'.
  unfold pollOne, fileChanged. rewrite Hp, Hm, Hs.
  destruct (stat (Path (polled stat info))) as [[mt sz]|] eqn:E; [|done].
  rewrite polled_Path in E. by rewrite (polled_settled stat info mt sz E).
Qed.

Lemma pollOne_events stat tw c e :
  e ∈ events (pollOne stat tw c) →
  e ∈ events tw ∨
  (e = mkEvent EventSessionUpdated (ci_id c) ∧
   ∃ mt sz, stat (ci_path c) = Some (mt, sz) ∧ fileChanged c mt sz = true).
Proof.
  unfold pollOne. destruct (stat (ci_path c)) as [[mt sz]|]; [|by left].
  destruct (fileChanged c mt sz) eqn:E; [|by left].
  unfold trySend. case_decide; cbn.
  - intros [He| ->%list_elem_of_singleton]%elem_of_app.
    + left. by destruct (sessions tw !! ci_id c).
    + right. split; [done|]. by exists mt, sz.
  - intros He. left. by destruct (sessions tw !! ci_id c).
Qed.

Lemma pollFold_events stat l : ∀ tw e,
  e ∈ events (foldl (pollOne stat) tw l) →
  e ∈ events tw ∨
  ∃ c, c ∈ l ∧ e = mkEvent EventSessionUpdated (ci_id c) ∧
       ∃ mt sz, stat (ci_path c) = Some (mt, sz) ∧ fileChanged c mt sz = true.
Proof.
  induction l as [|c l IH]; intros tw e He; [by left|].
  cbn [foldl] in He. destruct (IH _ _ He) as [He'|(c' & Hc' & Hrest)].
  - destruct (pollOne_events stat tw c e He') as [?|Hnew]; [by left|].
    right. exists c. split; [by left|done].
  - right. exists c'. split; [by right|done].
Qed.

Lemma pollOne_length stat tw c :
  (length (events (pollOne stat tw c)) ≤ S (length (events tw)))%nat.
Proof.
  unfold pollOne. destruct (stat (ci_path c)) as [[mt sz]|]; [|lia].
  destruct (fileChanged c mt sz); [|lia].
  unfold trySend. case_decide; cbn.
  - rewrite length_app. simpl. destruct (sessions tw !! ci_id c); cbn; lia.
  - destruct (sessions tw !! ci_id c); cbn; lia.
Qed.

Lemma pollFold_complete stat l : ∀ tw c mt sz,
  (length (events tw) + length l ≤ eventsCap)%nat →
  c ∈ l → stat (ci_path c) = Some (mt, sz) → fileChanged c mt sz = true →
  mkEvent EventSessionUpdated (ci_id c) ∈ events (foldl (pollOne stat) tw l).
Proof.
  induction l as [|c0 l IH]; intros tw c mt sz Hroom Hc Hs Hch.
  { by apply elem_of_nil in Hc. }
  simpl in Hroom. cbn [foldl]. apply elem_of_cons in Hc as [<-|Hc].
  - destruct (foldl_refreshes (pollOne stat) l (pollOne_refreshes stat) (pollOne stat tw c))
      as (_ & _ & _ & _ & _ & _ & Hpre & _).
    eapply elem_of_prefix; [|exact Hpre].
    unfold pollOne. rewrite Hs, Hch. unfold trySend.
    rewrite decide_True by (destruct (sessions tw !! ci_id c); cbn; lia).
    cbn. apply elem_of_app. right. by apply list_elem_of_singleton.
  - eapply IH; try done. pose proof (pollOne_length stat tw c0). lia.
Qed.

(** X8. What one run of the poller does.  A hot session is left alone; a
    cold session whose file cannot be read, or whose modification time has
    not advanced and whose size is the same, is left alone; any other cold
    session has its recorded modification time and size replaced by the
    file's.  Every event the run queues is a session-updated event for a
    cold session whose file changed, and with room in the queue every such
    session gets its event. *)
Theorem X8_poll_refreshes_changed_cold_sessions
    (stat : string → option (Time * Z)) (tw : TieredWatcher) :
  (∀ k, sessions (pollColdSessions stat tw) !! k =
        match sessions tw !! k with
        | Some info => Some (if decide (k ∈ hotIDs tw) then info else polled stat info)
        | None => None
        end) ∧
  (∀ e, e ∈ events (pollColdSessions stat tw) →
        e ∈ events tw ∨
        (Type_ e = EventSessionUpdated ∧ (SessionID e ∉ hotIDs tw) ∧
         ∃ info mt sz, sessions tw !! SessionID e = Some info ∧
                       stat (Path info) = Some (mt, sz) ∧
                       (ModTime info < mt ∨ sz ≠ FileSize info))) ∧
  ((length (events tw) + length (coldToCheck tw) ≤ eventsCap)%nat →
   ∀ k info mt sz,
     sessions tw !! k = Some info → k ∉ hotIDs tw →
     stat (Path info) = Some (mt, sz) →
     ModTime info < mt ∨ sz ≠ FileSize info →
     mkEvent EventSessionUpdated k ∈ events (pollColdSessions stat tw)).
Proof.
  split_and!.
  - apply poll_sessions.
  - intros e He. destruct (pollFold_events stat _ _ _ He) as [?|(c & Hc & -> & Hch)];
      [by left|right].
    apply elem_of_coldToCheck in Hc as (Hcold & info & Hinfo & Hp & Hm & Hs).
    destruct Hch as (mt & sz & Hstat & Hch). simpl.
    split_and!; [done|done|]. exists info, mt, sz. rewrite <- Hp.
    split_and!; [done|done|]. unfold fileChanged in Hch. rewrite Hm, Hs in Hch.
    apply orb_true_iff in Hch as [Hlt|Hne].
    + left. by apply Z.ltb_lt.
    + right. apply negb_true_iff, Z.eqb_neq in Hne. done.
  - intros Hroom k info mt sz Hinfo Hcold Hstat Hch.
    apply (pollFold_complete stat (coldToCheck tw) tw
             (mkCheckInfo k (Path info) (ModTime info) (FileSize info)) mt sz);
      try done.
    + apply elem_of_coldToCheck. simpl. split; [done|]. by exists info.
    + unfold fileChanged. simpl. apply orb_true_iff.
      destruct Hch as [Hlt|Hne]; [left; by apply Z.ltb_lt|right].
      by apply negb_true_iff, Z.eqb_neq.
Qed.

Lemma X8_poll_refreshes_changed_cold_sessions_witness :
  mkEvent EventSessionUpdated "b"
  ∈ events (pollColdSessions sampleStat
              (run sampleDir sampleExt (take 3 singleCalls) sampleNew)).
Proof.
  apply (proj2 (proj2 (X8_poll_refreshes_changed_cold_sessions sampleStat
           (run sampleDir sampleExt (take 3 singleCalls) sampleNew)))
         ltac:(vm_compute; lia) "b" (mkSessionInfo "b" "/sessions/b.jsonl" 2 0 10) 500 20).
  - by vm_compute.
  - compute_done.
  - reflexivity.
  - left. simpl. lia.
Defined.

(** *** Promotion and the demotion sweep *)

Lemma findOldest_before_new m hot id info now now' :
  hot ≠ [] →
  (∀ h, h ∈ hot → ∃ ih, m !! h = Some ih ∧ LastHot ih ≤ now) →
  id ∉ hot → now ≤ now' →
  (findOldest (<[id := setLastHot now info]> m) (hot ++ [id]) 0 0 now' < length hot)%nat.
Proof.
  intros Hne Hhot Hcold Hnow.
  destruct hot as [|h0 hot'] eqn:Hhots; [done|]. rewrite <- Hhots in *.
  assert (0 < length hot)%nat as Hpos by (rewrite Hhots; simpl; lia).
  set (m' := <[id:=setLastHot now info]> m).
  destruct (WatcherProofs.findOldest_spec m' (hot ++ [id]) 0 0 now')
    as [[-> _]|(j & e & ie & -> & Hj & He & _ & _ & Hfst)]; [done|].
  simpl. destruct (decide (j < length hot)%nat) as [|Hge]; [done|]. exfalso.
  rewrite lookup_app_r in Hj by lia.
  apply list_lookup_singleton_Some in Hj as [_ <-].
  unfold m' in He. rewrite lookup_insert_eq in He. inversion He; subst ie.
  destruct (Hhot h0) as (i0 & Hi0 & Hle0); [rewrite Hhots; by left|].
  assert (LastHot (setLastHot now info) < LastHot i0).
  { apply (Hfst 0%nat h0); [lia| |].
    - rewrite lookup_app_l by done. by rewrite Hhots.
    - unfold m'. rewrite lookup_insert_ne; [done|]. intros ->. apply Hcold.
      rewrite Hhots. by left. }
  simpl in *. lia.
Qed.

Lemma PromoteToHot_makes_hot dirOf now now' addOK id info tw :
  sessions tw !! id = Some info →
  (∀ h, h ∈ hotIDs tw → ∃ ih, sessions tw !! h = Some ih ∧ LastHot ih ≤ now) →
  now ≤ now' →
  id ∈ hotIDs (PromoteToHot dirOf now now' addOK id tw) ∧
  sessions (PromoteToHot dirOf now now' addOK id tw) !! id = Some (setLastHot now info).
Proof.
  intros Hid Hhot Hnow. split.
  - destruct (decide (id ∈ hotIDs tw)) as [Hin|Hcold].
    { by rewrite WatcherProofs.PromoteToHot_hot. }
    unfold PromoteToHot. rewrite Hid. cbn zeta.
    rewrite decide_False by done.
    rewrite WatcherProofs.watchSessionDir_hotIDs.
    case_decide as Hlen; cbn [hotIDs setHotIDs setSessions] in *.
    + rewrite WatcherProofs.demoteOldestLocked_hot. cbn [hotIDs setHotIDs setSessions sessions].
      assert (hotIDs tw ≠ []) as Hne.
      { intros E. rewrite E in Hlen. simpl in Hlen. unfold MaxHotSessions in Hlen. lia. }
      pose proof (findOldest_before_new (sessions tw) (hotIDs tw) id info now now'
                    Hne Hhot Hcold Hnow) as Hk.
      rewrite delete_take_drop, drop_app_le by lia.
      apply elem_of_app. right. apply elem_of_app. right. by apply list_elem_of_singleton.
    + apply elem_of_app. right. by apply list_elem_of_singleton.
  - by rewrite WatcherProofs.PromoteToHot_sessions, Hid, lookup_insert_eq.
Qed.

(** X9. Promotion of a registered session always takes effect: when no hot
    session carries a [LastHot] later than the clock, the promoted session is
    hot afterwards, with [LastHot] set to the time of the call, whatever the
    state of the hot list; the eviction never removes the session just
    promoted.  A session that was cold has its directory watched if the
    notifier accepts it; for one that was already hot neither the hot list
    nor the watched directories change. *)
Theorem X9_promotion_makes_session_hot
    (dirOf : string → string) (now now' : Time) (addOK : string → bool)
    (id : string) (info : SessionInfo) (tw : TieredWatcher) :
  sessions tw !! id = Some info →
  (∀ h, h ∈ hotIDs tw → ∃ ih, sessions tw !! h = Some ih ∧ LastHot ih ≤ now) →
  now ≤ now' →
  let tw' := PromoteToHot dirOf now now' addOK id tw in
  id ∈ hotIDs tw' ∧
  sessions tw' !! id = Some (setLastHot now info) ∧
  (id ∉ hotIDs tw → addOK (dirOf (Path info)) = true →
   dirOf (Path info) ∈ watchDirs tw') ∧
  (id ∈ hotIDs tw → hotIDs tw' = hotIDs tw ∧ watchDirs tw' = watchDirs tw).
Proof.
  intros Hid Hhot Hnow tw'.
  destruct (PromoteToHot_makes_hot dirOf now now' addOK id info tw Hid Hhot Hnow)
    as [Hin Hs].
  split_and!; [done|done| |].
  - intros Hcold Hok. unfold tw', PromoteToHot. rewrite Hid. cbn zeta.
    rewrite decide_False by done.
    set (tw3 := if decide _ then _ else _).
    assert (watchDirs tw3 = watchDirs tw) as Hw.
    { unfold tw3. case_decide; [|done]. unfold demoteOldestLocked. cbn.
      by destruct (hotIDs tw ++ [id]). }
    unfold watchSessionDir. cbn [Path setLastHot].
    case_decide; [done|]. rewrite Hok. cbn. apply elem_of_union. left.
    by apply elem_of_singleton.
  - intros Hwas. unfold tw', PromoteToHot. rewrite Hid. cbn zeta.
    by rewrite decide_True.
Qed.

Lemma X9_promotion_makes_session_hot_witness :
  "b" ∈ hotIDs (PromoteToHot sampleDir 200 201 allow "b" oneHot).
Proof.
  apply (X9_promotion_makes_session_hot sampleDir 200 201 allow "b"
           (mkSessionInfo "b" "/sessions/b.jsonl" 2 0 10) oneHot).
  - by vm_compute.
  - intros h Hh. assert (h = "a") as ->.
    { vm_compute in Hh. by apply list_elem_of_singleton in Hh. }
    eexists. split; [by vm_compute|]. simpl. lia.
  - lia.
Defined.

(** X10. A promoted session survives exactly the demotion sweeps that run
    less than [HotInactivityTimeout] (five minutes) after its promotion: a
    sweep at [later] keeps it if and only if [later < now + 5 min]. *)
Theorem X10_promoted_session_stays_hot_for_five_minutes
    (dirOf : string → string) (now now' later : Time) (addOK : string → bool)
    (id : string) (info : SessionInfo) (tw : TieredWatcher) :
  sessions tw !! id = Some info →
  (∀ h, h ∈ hotIDs tw → ∃ ih, sessions tw !! h = Some ih ∧ LastHot ih ≤ now) →
  now ≤ now' →
  id ∈ hotIDs (demoteInactive later (PromoteToHot dirOf now now' addOK id tw))
  ↔ later < now + 5 * Minute.
Proof.
  intros Hid Hhot Hnow.
  destruct (PromoteToHot_makes_hot dirOf now now' addOK id info tw Hid Hhot Hnow)
    as [Hin Hs].
  unfold demoteInactive. cbn [hotIDs setHotIDs].
  rewrite list_elem_of_filter. unfold keptHot. rewrite Hs. cbn [LastHot setLastHot].
  rewrite bool_decide_spec. unfold HotInactivityTimeout. split.
  - intros [Hlt _]. lia.
  - intros Hlt. split; [lia|done].
Qed.

Lemma X10_promoted_session_stays_hot_for_five_minutes_witness :
  ("b" ∈ hotIDs (demoteInactive (200 + 4 * Minute)
                   (PromoteToHot sampleDir 200 201 allow "b" oneHot))) ∧
  ("b" ∉ hotIDs (demoteInactive (200 + 5 * Minute)
                   (PromoteToHot sampleDir 200 201 allow "b" oneHot))).
Proof.
  assert (Hhot : ∀ h, h ∈ hotIDs oneHot →
                      ∃ ih, sessions oneHot !! h = Some ih ∧ LastHot ih ≤ 200).
  { intros h Hh. assert (h = "a") as ->.
    { vm_compute in Hh. by apply list_elem_of_singleton in Hh. }
    eexists. split; [by vm_compute|]. simpl. lia. }
  split.
  - apply (X10_promoted_session_stays_hot_for_five_minutes sampleDir 200 201
             (200 + 4 * Minute) allow "b"
             (mkSessionInfo "b" "/sessions/b.jsonl" 2 0 10) oneHot);
      [by vm_compute|exact Hhot|lia|unfold Minute, Second, Millisecond; lia].
  - intros Hin.
    apply (X10_promoted_session_stays_hot_for_five_minutes sampleDir 200 201
             (200 + 5 * Minute) allow "b"
             (mkSessionInfo "b" "/sessions/b.jsonl" 2 0 10) oneHot) in Hin;
      [lia|by vm_compute|exact Hhot|lia].
Defined.

(** X11. The poller and the notification consumer only refresh: neither
    changes the hot list, the watched directories, the closed flag or the
    configuration; neither adds or removes a session or touches a session's
    ID, path or [LastHot]; and the events already queued stay at the head of
    the queue, in order. *)
Theorem X11_poller_and_consumer_only_refresh
    (ext : string → string) (pstat : string → option (Time * Z))
    (stat : Time → string → option (Time * Z))
    (trace : list (Time * FsEvent)) (tw : TieredWatcher) :
  onlyRefreshes tw (pollColdSessions pstat tw) ∧
  onlyRefreshes tw (watchLoop ext stat trace tw).
Proof. split; [apply pollColdSessions_refreshes|apply watchLoop_refreshes]. Qed.

(** *** Shutdown *)

Lemma closeTimes_closed n : ∀ tw, closed tw = true → closeTimes n tw = (tw, []).
Proof.
  induction n as [|n IH]; intros tw Hc; [done|].
  cbn [closeTimes]. unfold Close. rewrite Hc. by rewrite (IH tw Hc).
Qed.

(** X12. However often [Close] is called, the shutdown steps run once: the
    first call on an open watcher stops the ticker, closes the poller's
    channel, the notifier and the event channel, in this order, and sets the
    closed flag; every later call does nothing, so no channel is closed
    twice.  Sessions, hot list and queue are left as they were. *)
Theorem X12_close_runs_its_steps_once (n : nat) (tw : TieredWatcher) :
  let '(tw', steps) := closeTimes (S n) tw in
  closed tw' = true ∧
  steps = (if closed tw then []
           else [StopPollTicker; ClosePollDone; CloseNotifier; CloseEvents]) ∧
  sessions tw' = sessions tw ∧ hotIDs tw' = hotIDs tw ∧ events tw' = events tw ∧
  watchDirs tw' = watchDirs tw.
Proof.
  cbn [closeTimes]. unfold Close. destruct (closed tw) eqn:Hc.
  - rewrite closeTimes_closed by done. by rewrite Hc.
  - by rewrite closeTimes_closed.
Qed.

(** *** Registration *)

Lemma setLastHot_same info : setLastHot (LastHot info) info = info.
Proof. by destruct info. Qed.

Lemma setLastHot_twice t t' info : setLastHot t (setLastHot t' info) = setLastHot t info.
Proof. by destruct info. Qed.

Lemma promoteTop_lastHot_only dirOf nows addOK fuel : ∀ i sorted tw k info,
  sessions tw !! k = Some info →
  ∃ t, sessions (promoteTop dirOf fuel i sorted nows addOK tw) !! k
       = Some (setLastHot t info).
Proof.
  induction fuel as [|fuel IH]; intros i sorted tw k info Hk.
  { exists (LastHot info). by rewrite setLastHot_same. }
  destruct sorted as [|s rest].
  { exists (LastHot info). by rewrite setLastHot_same. }
  cbn [promoteTop]. destruct (sessions tw !! st_id s) as [i0|] eqn:E.
  2:{ exists (LastHot info). by rewrite setLastHot_same. }
  cbn zeta.
  set (tw1 := watchSessionDir _ _ _ _).
  assert (sessions tw1 = <[st_id s := setLastHot (nows i) i0]> (sessions tw)) as Hs.
  { unfold tw1. rewrite WatcherProofs.watchSessionDir_sessions. by case_decide. }
  destruct (decide (st_id s = k)) as [<-|Hne].
  - rewrite E in Hk. inversion Hk; subst i0.
    destruct (IH (S i) rest tw1 (st_id s) (setLastHot (nows i) info)) as [t Ht].
    { by rewrite Hs, lookup_insert_eq. }
    exists t. by rewrite Ht, setLastHot_twice.
  - apply IH. by rewrite Hs, lookup_insert_ne.
Qed.

(** X13. Registration never overwrites.  For a session already registered,
    [RegisterSession] changes nothing, whatever path and file metadata it is
    given; and a batch registration that lists the session again keeps its
    path, modification time and size as first registered: at most its
    [LastHot] changes, when the batch promotes it. *)
Theorem X13_registration_never_overwrites
    (dirOf : string → string) (id : string) (info : SessionInfo) (tw : TieredWatcher) :
  sessions tw !! id = Some info →
  (∀ stat path, RegisterSession stat id path tw = tw) ∧
  (∀ sorted nows addOK batch,
     ∃ t, sessions (RegisterSessionsWith dirOf sorted nows addOK batch tw) !! id
          = Some (setLastHot t info)).
Proof.
  intros Hid. split.
  - intros stat path. unfold RegisterSession. by rewrite Hid.
  - intros sorted nows addOK batch. unfold RegisterSessionsWith, autoPromoteRecentLocked.
    pose proof (registerAll_keeps batch _ _ _ Hid) as Hk.
    case_decide.
    + exists (LastHot info). by rewrite setLastHot_same.
    + by apply promoteTop_lastHot_only.
Qed.

Lemma X13_registration_never_overwrites_witness :
  RegisterSession (Some (900, 99)) "b" "/elsewhere/b.jsonl" oneHot = oneHot.
Proof.
  apply (proj1 (X13_registration_never_overwrites sampleDir "b"
                  (mkSessionInfo "b" "/sessions/b.jsonl" 2 0 10) oneHot
                  ltac:(by vm_compute))).
Defined.

(** *** Notifications that do not overlap *)

Lemma spaced_fold ext stat tw rest : ∀ prev ev tw0,
  filePattern tw0 = filePattern tw → extractID tw0 = extractID tw →
  spacedFrom prev rest →
  forallb (λ n, negb (skipped ext tw n.2)) rest = true →
  (length (events tw0) + S (length rest) ≤ eventsCap)%nat →
  events (settle stat
            (foldl (onNotification ext stat)
                   (mkLoop (Name ev) (Some (prev + debounceDelay, ev)), tw0) rest))
  = events tw0 ++ eventOf tw ev ++ concat ((λ n, eventOf tw n.2) <$> rest).
Proof.
  induction rest as [|[t e] rest IH]; intros prev ev tw0 Hpat Hext Hsp Hun Hroom.
  - cbn [foldl settle debounceTimer lastPath fmap list_fmap concat].
    rewrite WatcherProofs.timerFires_events by (simpl in Hroom; lia).
    rewrite app_nil_r. unfold eventOf. cbn [lastPath]. by rewrite Hext.
  - destruct Hsp as [Hdue Hsp]. cbn [forallb] in Hun.
    apply andb_true_iff in Hun as [He Hun]. cbn [snd] in He.
    apply negb_true_iff in He.
    cbn [foldl]. unfold onNotification at 2. unfold advanceTo.
    cbn [debounceTimer lastPath].
    assert ((prev + debounceDelay <=? t) = true) as -> by (apply Z.leb_le; lia).
    set (tw1 := timerFires _ _ _ tw0).
    destruct (timerFires_refreshes (stat (prev + debounceDelay) (Name ev)) ev
                (mkLoop (Name ev) (Some (prev + debounceDelay, ev))) tw0)
      as (_ & _ & _ & _ & Hpat1 & Hext1 & _).
    fold tw1 in Hpat1, Hext1.
    assert (skipped ext tw1 e = false) as ->.
    { unfold skipped in *. by rewrite Hpat1, Hpat. }
    assert (events tw1 = events tw0 ++ eventOf tw ev) as Hev.
    { unfold tw1. rewrite WatcherProofs.timerFires_events by (simpl in Hroom; lia).
      unfold eventOf. cbn [lastPath]. by rewrite Hext. }
    rewrite IH; [|congruence|congruence|done|done|].
    + rewrite Hev. cbn [fmap list_fmap concat snd].
      by rewrite <- !app_assoc.
    + rewrite Hev, length_app. simpl in Hroom.
      assert (length (eventOf tw ev) ≤ 1)%nat
        by (unfold eventOf; destruct (eventTypeOf _); simpl; lia).
      lia.
Qed.

(** X14. Notifications that do not overlap are all reported: when each
    notification arrives more than [debounceDelay] (100 ms) after the
    previous one, none is skipped by the file pattern and the queue has room, the
    consumer queues, in order of arrival, one event per notification that is
    not a pure remove, of the type given by the notification's operation,
    for the session of the notified path. *)
Theorem X14_spaced_notifications_are_all_reported
    (ext : string → string) (stat : Time → string → option (Time * Z))
    (trace : list (Time * FsEvent)) (tw : TieredWatcher) :
  isSpaced trace →
  forallb (λ n, negb (skipped ext tw n.2)) trace = true →
  (length (events tw) + length trace ≤ eventsCap)%nat →
  events (watchLoop ext stat trace tw)
  = events tw ++ concat ((λ n, eventOf tw n.2) <$> trace).
Proof.
  intros Hsp Hun Hroom. unfold watchLoop.
  destruct trace as [|[t e] rest].
  { cbn. by rewrite app_nil_r. }
  cbn [forallb] in Hun. apply andb_true_iff in Hun as [He Hun]. cbn [snd] in He.
  apply negb_true_iff in He.
  cbn [foldl]. unfold onNotification at 2. unfold advanceTo, loopStart.
  cbn [debounceTimer]. rewrite He.
  rewrite (spaced_fold ext stat tw rest t e tw); try done.
Qed.

Lemma X14_spaced_notifications_are_all_reported_witness :
  events (watchLoop sampleExt noStat spacedWrites sampleNew)
  = [mkEvent EventMessageAdded "/sessions/a.jsonl";
     mkEvent EventSessionCreated "/sessions/b.jsonl"].
Proof.
  apply (X14_spaced_notifications_are_all_reported sampleExt noStat spacedWrites sampleNew).
  - simpl. unfold debounceDelay, Second, Millisecond. lia.
  - reflexivity.
  - simpl. unfold eventsCap. lia.
Defined.

(** *** The manager *)

Lemma RegisterSession_keeps stat id path tw k i :
  sessions tw !! k = Some i → sessions (RegisterSession stat id path tw) !! k = Some i.
Proof.
  intros Hk. unfold RegisterSession. destruct (sessions tw !! id) eqn:E; [done|].
  cbn. rewrite lookup_insert_ne; [done|]. intros ->. congruence.
Qed.

Lemma RegisterSession_registers stat id path tw :
  is_Some (sessions (RegisterSession stat id path tw) !! id).
Proof.
  unfold RegisterSession. destruct (sessions tw !! id) eqn:E; [by rewrite E|].
  cbn. by rewrite lookup_insert_eq.
Qed.

(** X15. Registration and promotion through the manager compose: once a
    session is registered with the watcher of an adapter, promoting it
    through the manager makes it hot in that watcher; the watchers of the
    other adapters, which do not know the session, are left exactly as they
    were; and the manager keeps the same adapters. *)
Theorem X15_manager_promotion_reaches_the_registering_watcher
    (dirOf : string → string) (stat : option (Time * Z))
    (nows : string → Time * Time) (addOK : string → string → bool)
    (a id path : string) (m : Manager) (tw : TieredWatcher) :
  watchers m !! a = Some tw →
  (∀ h, h ∈ hotIDs tw → ∃ ih, sessions tw !! h = Some ih ∧ LastHot ih ≤ (nows a).1) →
  (nows a).1 ≤ (nows a).2 →
  let m' := PromoteSession dirOf nows addOK id (ManagerRegisterSession stat a id path m) in
  (∃ tw', watchers m' !! a = Some tw' ∧ id ∈ hotIDs tw') ∧
  (∀ k twk, k ≠ a → watchers m !! k = Some twk → sessions twk !! id = None →
            watchers m' !! k = Some twk) ∧
  dom (watchers m') = dom (watchers m).
Proof.
  intros Ha Hhot Hnow m'. unfold m', PromoteSession, ManagerRegisterSession.
  rewrite Ha. cbn [watchers]. split_and!.
  - rewrite map_lookup_imap, lookup_insert_eq. cbn. eexists. split; [done|].
    destruct (RegisterSession_registers stat id path tw) as [info Hinfo].
    eapply PromoteToHot_makes_hot; [exact Hinfo| |done].
    intros h Hh. rewrite WatcherProofs.RegisterSession_hotIDs in Hh.
    destruct (Hhot h Hh) as (ih & Hih & Hle). exists ih.
    split; [by apply RegisterSession_keeps|done].
  - intros k twk Hne Hk Hnone.
    rewrite map_lookup_imap, lookup_insert_ne, Hk by done. cbn.
    by rewrite WatcherProofs.PromoteToHot_unregistered.
  - apply set_eq. intros k. rewrite !elem_of_dom, map_lookup_imap.
    destruct (decide (k = a)) as [->|Hne].
    + rewrite lookup_insert_eq, Ha. cbn. split; eauto.
    + rewrite lookup_insert_ne by done. destruct (watchers m !! k); cbn; [|done].
      split; eauto.
Qed.

Lemma X15_manager_promotion_reaches_the_registering_watcher_witness :
  ∃ tw', watchers (PromoteSession sampleDir (λ _, (200, 201)) (λ _, allow) "n"
                     (ManagerRegisterSession None "claude" "n" "/sessions/n.jsonl"
                        sampleManager)) !! "claude" = Some tw'
         ∧ "n" ∈ hotIDs tw'.
Proof.
  apply (X15_manager_promotion_reaches_the_registering_watcher sampleDir None
           (λ _, (200, 201)) (λ _, allow) "claude" "n" "/sessions/n.jsonl"
           sampleManager oneHot).
  - by vm_compute.
  - intros h Hh. assert (h = "a") as ->.
    { vm_compute in Hh. by apply list_elem_of_singleton in Hh. }
    eexists. split; [by vm_compute|]. simpl. lia.
  - simpl. lia.
Defined.

End WatcherInvariants.

(** ** Classifiers: ranges, selection and caches *)

Module WorkspaceInvariants.
Import Workspace.

(** *** The project directory name *)




(** *** Selection of the most recent file *)

Section Selection.
Variable lib : Library.

Lemma pick_fold suffix dir entries : ∀ best,
  let r := foldl (pick lib suffix dir) best entries in
  best.2 ≤ r.2 ∧
  (∀ e info, e ∈ entries → eligible suffix e info → UnixNano (ModTime info) ≤ r.2) ∧
  (r = best ∨
   ∃ e info, e ∈ entries ∧ eligible suffix e info ∧ best.2 < r.2 ∧
             r.2 = UnixNano (ModTime info) ∧ r.1 = Join lib [dir; Name e]).
Proof.
  induction entries as [|e entries IH]; intros best r.
  { subst r. simpl. split_and!; [lia| |by left].
    intros e info He. by apply elem_of_nil in He. }
  subst r. cbn [foldl].
  destruct (IH (pick lib suffix dir best e)) as (Hle & Hmax & Hsel).
  set (r := foldl (pick lib suffix dir) (pick lib suffix dir best e) entries) in *.
  assert (Hpick : best.2 ≤ (pick lib suffix dir best e).2 ∧
                  (∀ info, eligible suffix e info →
                           UnixNano (ModTime info) ≤ (pick lib suffix dir best e).2) ∧
                  (pick lib suffix dir best e = best ∨
                   ∃ info, eligible suffix e info ∧ best.2 < (pick lib suffix dir best e).2 ∧
                           (pick lib suffix dir best e).2 = UnixNano (ModTime info) ∧
                           (pick lib suffix dir best e).1 = Join lib [dir; Name e])).
  { unfold pick, eligible.
    destruct (IsDir e) eqn:Ed; cbn [orb].
    { split_and!; [lia| |by left]. by intros info (? & _). }
    destruct (HasSuffix (Name e) suffix) eqn:Es; cbn [negb].
    2:{ split_and!; [lia| |by left]. by intros info (_ & ? & _). }
    destruct (Info e) as [info|] eqn:Ei.
    2:{ split_and!; [lia| |by left]. by intros info (_ & _ & ?). }
    cbn zeta. destruct (Z.ltb_spec best.2 (UnixNano (ModTime info))) as [Hlt|Hge]; cbn [fst snd].
    - split_and!; [lia| |].
      + intros info' (_ & _ & [= <-]). lia.
      + right. exists info. by split_and!.
    - split_and!; [lia| |by left].
      intros info' (_ & _ & [= <-]). lia. }
  destruct Hpick as (Hle0 & Hmax0 & Hsel0).
  split_and!; [lia| |].
  - intros e' info [->|He']%elem_of_cons Hel.
    + specialize (Hmax0 info Hel). lia.
    + by apply (Hmax e' info).
  - destruct Hsel as [Hr|(e' & info & He' & Hel & Hlt & Hmt & Hp)].
    + destruct Hsel0 as [Hb|(info & Hel & Hlt & Hmt & Hp)].
      * left. by rewrite Hr, Hb.
      * right. exists e, info. rewrite Hr. split_and!; [by left|done..].
    + right. exists e', info. split_and!; [by right|done|lia|done|done].
Qed.

Lemma mostRecentWith_pick suffix dir entries :
  mostRecentWith lib suffix dir entries = foldl (pick lib suffix dir) ("", 0) entries.
Proof. reflexivity. Qed.

(** X17. The loop that selects the most recent file of a directory
    (sub-agent files in [subagentStatus]).  The time it ends with is at least
    that of every eligible entry; either it selects nothing (empty path, time
    0) or the path it returns is that of an eligible entry whose modification
    time is that maximum and lies after the Unix epoch.  Files dated at the
    epoch or before are never selected. *)
Theorem X17_most_recent_entry_is_selected (suffix dir : string) (entries : list DirEntry) :
  let r := mostRecentWith lib suffix dir entries in
  (∀ e info, e ∈ entries → eligible suffix e info → UnixNano (ModTime info) ≤ r.2) ∧
  (r = ("", 0) ∨
   ∃ e info, e ∈ entries ∧ eligible suffix e info ∧ 0 < UnixNano (ModTime info) ∧
             r = (Join lib [dir; Name e], UnixNano (ModTime info))).
Proof.
  intros r. subst r. rewrite mostRecentWith_pick.
  destruct (pick_fold suffix dir entries ("", 0)) as (_ & Hmax & Hsel).
  split; [done|].
  destruct Hsel as [?|(e & info & He & Hel & Hlt & Hmt & Hp)]; [by left|].
  right. exists e, info. cbn [snd] in Hlt. split_and!; [done|done|lia|].
  destruct (foldl _ _ _) as [p mt]. simpl in *. by subst.
Qed.

(** *** Ranges of the classifiers *)

Lemma subagentStatus_range fs now dir thr st :
  subagentStatus lib fs now dir thr = (st, true) →
  (st = StatusActive ∨ st = StatusThinking) ∧
  ∃ entries, ReadDir fs dir = Some entries ∧
     isFileRecentlyModified fs now (mostRecentWith lib ".jsonl" dir entries).1
       subagentMaxStaleness = true.
Proof.
  unfold subagentStatus, notFound.
  destruct (ReadDir fs dir) as [entries|]; [|discriminate].
  destruct (String.eqb _ ""); [discriminate|].
  destruct (isFileRecentlyModified fs now _ subagentMaxStaleness) eqn:Hfresh;
    cbn [negb]; [|discriminate].
  destruct (getClaudeSessionStatus lib fs _) as [s ok]. destruct ok; cbn [negb]; [|discriminate].
  intros H. split; [|by exists entries].
  destruct (isFileRecentlyModified fs now _ thr); destruct s; inversion H; auto.
Qed.

(** X18. A sub-agent never makes a session look finished: when
    [subagentStatus] finds a status it is Active or Thinking, never Waiting
    or Done, and the most recent sub-agent file was modified less than
    [subagentMaxStaleness] (2 min) ago. *)
Theorem X18_subagent_reports_only_active_or_thinking
    (fs : FS) (now : Time) (dir : string) (thr : Duration) (st : WorktreeStatus) :
  subagentStatus lib fs now dir thr = (st, true) →
  (st = StatusActive ∨ st = StatusThinking) ∧
  ∃ entries, ReadDir fs dir = Some entries ∧
     isFileRecentlyModified fs now (mostRecentWith lib ".jsonl" dir entries).1
       subagentMaxStaleness = true.
Proof. apply subagentStatus_range. Qed.

Lemma claudeCandidates_range fs now projectDir files :
  let r := claudeCandidates lib fs now projectDir files in
  (r.2 = true ↔ Exists (λ f, (getClaudeSessionStatus lib fs f).2 = true) files) ∧
  (r.2 = true → reported r.1) ∧
  (r.2 = false → r = notFound).
Proof.
  induction files as [|f files IH]; intros r; subst r.
  { cbn. split_and!; [|done|done]. split; [done|]. by intros H%Exists_nil. }
  destruct (getClaudeSessionStatus lib fs f) as [st ok] eqn:E. destruct ok.
  - rewrite (WorkspaceProofs.claudeCandidates_found lib fs now projectDir f files st E).
    pose proof (WorkspaceProofs.getClaude_found lib fs f st E) as Hst.
    assert (Hex : Exists (λ f, (getClaudeSessionStatus lib fs f).2 = true) (f :: files)).
    { left. by rewrite E. }
    repeat case_decide; subst;
      try (destruct (isFileRecentlyModified fs now f claudeActivityThreshold));
      cbn [fst snd]; unfold reported;
      try (split_and!; [done|by auto|done]).
    destruct (subagentStatus lib fs now _ claudeActivityThreshold) as [sub []] eqn:Es;
      cbn [fst snd]; (split_and!; [done| |done]); intros _; [|done].
    apply subagentStatus_range in Es as [[-> | ->] _]; auto.
  - cbn [claudeCandidates]. rewrite E. cbn [negb].
    destruct IH as (Hiff & Hrep & Hnf). split_and!; [|done|done].
    rewrite Hiff, Exists_cons, E. cbn [snd]. split; [by right|]. by intros [?|?].
Qed.

(** X19. The principal classifier finds a status exactly when one of the
    candidate session files of the project carries a line with a recognized
    role; the status is then Active, Thinking, Waiting or Done, and otherwise
    the result is the not-found pair. *)
Theorem X19_claude_found_iff_some_candidate_has_a_role
    (fs : FS) (now : Time) (worktreePath home absPath : string) (files : list string) :
  UserHomeDir fs = Some home →
  Abs fs worktreePath = Some absPath →
  findRecentJSONLFiles lib fs (claudeProjectDir lib home absPath) "agent-" = Some files →
  let r := detectClaudeSessionStatus lib fs now worktreePath in
  (r.2 = true ↔ Exists (λ f, (getClaudeSessionStatus lib fs f).2 = true) files) ∧
  (r.2 = true → reported r.1) ∧
  (r.2 = false → r = notFound).
Proof.
  intros Hhome Habs Hfind r. subst r.
  unfold detectClaudeSessionStatus. rewrite Hhome, Habs, Hfind.
  pose proof (claudeCandidates_range fs now (claudeProjectDir lib home absPath) files) as H.
  by destruct files.
Qed.

Lemma scanCodex_range lines st :
  scanCodex lib lines = (st, true) → st = StatusActive ∨ st = StatusWaiting.
Proof.
  induction lines as [|l lines IH]; [discriminate|].
  cbn [scanCodex]. cbn zeta.
  repeat case_match; try done; intros [= <-]; auto.
Qed.

(** X20. The Pi and Codex classifiers report only Active or Waiting:
    neither ever answers Thinking or Done. *)
Theorem X20_pi_and_codex_report_only_active_or_waiting
    (fs : FS) (now : Time) (worktreePath : string) (cs : Caches) (st : WorktreeStatus) :
  (detectPiSessionStatus lib fs now worktreePath = (st, true) →
   st = StatusActive ∨ st = StatusWaiting) ∧
  ((detectCodexSessionStatus lib fs now worktreePath cs).1 = (st, true) →
   st = StatusActive ∨ st = StatusWaiting).
Proof.
  split.
  - unfold detectPiSessionStatus, getPiLastMessageStatus, notFound.
    repeat case_match; try done; intros [= <-]; auto.
  - unfold detectCodexSessionStatus, getCodexLastMessageStatus, notFound.
    destruct (UserHomeDir fs); [|done]. destruct (Abs fs worktreePath); [|done].
    destruct (findCodexSessionForPath _ _ _ _ _ _) as [sessionFile cs'].
    destruct (String.eqb sessionFile ""); [done|].
    destruct (isFileRecentlyModified _ _ _ _); cbn [fst].
    + intros [= <-]. auto.
    + destruct (readTailLines _ _ _); [|done]. apply scanCodex_range.
Qed.

End Selection.

Lemma X18_subagent_reports_only_active_or_thinking_witness :
  StatusThinking = StatusActive ∨ StatusThinking = StatusThinking.
Proof.
  apply (X18_subagent_reports_only_active_or_thinking sampleLib
           (withSubagent (10 * Second) "user") sampleNow
           (claudeDir +:+ "/p/subagents") claudeActivityThreshold StatusThinking).
  by vm_compute.
Defined.

Lemma X19_claude_found_iff_some_candidate_has_a_role_witness :
  reported (detectClaudeSessionStatus sampleLib (staleAssistant "assistant-tool")
              sampleNow "/w").1.
Proof.
  apply (X19_claude_found_iff_some_candidate_has_a_role sampleLib
           (staleAssistant "assistant-tool") sampleNow "/w" "/home/u" "/w"
           [claudeDir +:+ "/s.jsonl"]).
  - reflexivity.
  - reflexivity.
  - by vm_compute.
  - by vm_compute.
Defined.

Lemma X20_pi_and_codex_report_only_active_or_waiting_witness :
  (StatusActive = StatusActive ∨ StatusActive = StatusWaiting) ∧
  (StatusActive = StatusActive ∨ StatusActive = StatusWaiting).
Proof.
  split.
  - apply (proj1 (X20_pi_and_codex_report_only_active_or_waiting sampleLib freshPi
                    sampleNow "/w" noCaches StatusActive)).
    by vm_compute.
  - apply (proj2 (X20_pi_and_codex_report_only_active_or_waiting sampleLib freshCodex
                    sampleNow "/w" noCaches StatusActive)).
    by vm_compute.
Defined.

(** X21. A placeholder message has no tool use: the two tests that
    [getClaudeSessionStatus] applies to an assistant entry never both
    succeed, so Thinking, Waiting and Done partition the assistant entries
    whatever the order of the tests. *)
Theorem X21_placeholder_has_no_tool_use (entry : list (string * JSON)) :
  isPlaceholderAssistant entry && hasToolUse entry = false.
Proof.
  unfold isPlaceholderAssistant, hasToolUse.
  destruct (asObject (jget "message" entry)) as [message|]; [|done].
  destruct (asArray (jget "content" message)) as [content|]; [|done].
  induction content as [|b content IH]; [done|].
  cbn [forallb existsb].
  destruct (toolUseBlock b) eqn:E.
  - by rewrite (WorkspaceProofs.toolUseBlock_not_blank b E).
  - cbn [orb]. destruct (blankTextBlock b); [exact IH|done].
Qed.

(** *** The listing of recent session files *)

Lemma insertByTime_perm x l : insertByTime x l ≡ₚ x :: l.
Proof.
  induction l as [|y l IH]; simpl; [done|].
  case_match; [done|]. rewrite IH. apply Permutation_swap.
Qed.

Lemma insertByTime_sorted x l :
  StronglySorted (λ a b, fe_modTime b ≤ fe_modTime a) l →
  StronglySorted (λ a b, fe_modTime b ≤ fe_modTime a) (insertByTime x l).
Proof.
  induction 1 as [|y l Hs IH Hall]; simpl.
  - constructor; [constructor|constructor].
  - destruct (Z.ltb_spec (fe_modTime y) (fe_modTime x)).
    + constructor; [by constructor|].
      constructor; [lia|]. eapply Forall_impl; [exact Hall|]. simpl. intros; lia.
    + constructor; [done|].
      rewrite insertByTime_perm. constructor; [lia|done].
Qed.

Lemma sortRecentFirst_perm l : sortRecentFirst l ≡ₚ l.
Proof.
  unfold sortRecentFirst. induction l as [|x l IH]; simpl; [done|].
  by rewrite insertByTime_perm, IH.
Qed.

Lemma sortRecentFirst_sorted l :
  StronglySorted (λ a b, fe_modTime b ≤ fe_modTime a) (sortRecentFirst l).
Proof.
  unfold sortRecentFirst. induction l as [|x l IH]; simpl; [constructor|].
  by apply insertByTime_sorted.
Qed.

(** X22. [findRecentJSONLFiles] fails exactly when the directory cannot be
    read.  Otherwise it lists the paths of the regular files of the
    directory whose name ends in [.jsonl], does not start with the excluded
    prefix (when one is given) and whose [Info()] succeeds, and no other
    path, ordered by modification time with the most recent first. *)
Theorem X22_recent_files_are_listed_most_recent_first
    (lib : Library) (fs : FS) (dir excludePrefix : string) :
  match ReadDir fs dir with
  | None => findRecentJSONLFiles lib fs dir excludePrefix = None
  | Some entries =>
      ∃ files,
        findRecentJSONLFiles lib fs dir excludePrefix = Some (fe_path <$> files) ∧
        StronglySorted (λ a b, fe_modTime b ≤ fe_modTime a) files ∧
        ∀ f, f ∈ files ↔
             ∃ e info, e ∈ entries ∧ eligible ".jsonl" e info ∧
                       (excludePrefix = "" ∨ HasPrefix (Name e) excludePrefix = false) ∧
                       f = mkFileEntry (Join lib [dir; Name e]) (UnixNano (ModTime info))
  end.
Proof.
  unfold findRecentJSONLFiles. destruct (ReadDir fs dir) as [entries|]; [|done].
  eexists. split_and!; [done|apply sortRecentFirst_sorted|].
  intros f. rewrite sortRecentFirst_perm, list_elem_of_omap. unfold eligible.
  split.
  - intros (e & He & Hf). exists e.
    destruct (IsDir e); [done|]. cbn [orb] in Hf.
    destruct (HasSuffix (Name e) ".jsonl"); [|done]. cbn [negb] in Hf.
    destruct (String.eqb_spec excludePrefix "") as [->|Hne]; cbn [negb andb] in Hf.
    + destruct (Info e) as [info|]; [|done]. exists info. inversion Hf.
      split_and!; auto.
    + destruct (HasPrefix (Name e) excludePrefix); [done|].
      destruct (Info e) as [info|]; [|done]. exists info. inversion Hf.
      split_and!; auto.
  - intros (e & info & He & (Hd & Hs & Hi) & Hex & ->). exists e. split; [done|].
    rewrite Hd, Hs, Hi. cbn [orb negb].
    destruct Hex as [->|Hp]; [done|]. rewrite Hp. by rewrite andb_false_r.
Qed.

(** *** The caches of the Codex locator *)

(** X23. The Codex locator repeats its answer for five seconds.  After a
    call that did not hit the path cache, a call for the same directory and
    worktree made no later than [codexSessionCacheTTL] (5 s) afterwards
    returns the same path without walking the directory, whatever the file
    system holds by then, as long as the remembered file still exists; an
    answer of "no session" is repeated in the same way.  Once the entry has
    expired, or the remembered file is gone, the call behaves as if nothing
    had been cached. *)
Theorem X23_codex_locator_repeats_its_answer_for_five_seconds
    (lib : Library) (fs fs' : FS) (now now' : Time) (sessionsDir worktreePath : string)
    (cs : Caches) :
  (cachedCodexSessionPath fs now sessionsDir worktreePath (codexSessionCache cs)).1.2 = false →
  let r := findCodexSessionForPath lib fs now sessionsDir worktreePath cs in
  let key := codexSessionCacheKey sessionsDir worktreePath in
  (now' ≤ now + codexSessionCacheTTL → r.1 = "" ∨ is_Some (Stat fs' r.1) →
   findCodexSessionForPath lib fs' now' sessionsDir worktreePath r.2 = r) ∧
  (now + codexSessionCacheTTL < now' ∨ (r.1 ≠ "" ∧ Stat fs' r.1 = None) →
   findCodexSessionForPath lib fs' now' sessionsDir worktreePath r.2
   = findCodexSessionForPath lib fs' now' sessionsDir worktreePath
       (mkCaches (delete key (codexSessionCache r.2)) (codexSessionCwdCache r.2))).
Proof.
  intros Hmiss r key.
  assert (∃ bestPath sc cc,
            r = (bestPath,
                 mkCaches (<[key := mkSessionCacheEntry bestPath (now + codexSessionCacheTTL)]> sc)
                          cc)) as (bestPath & sc & cc & Hr).
  { subst r. unfold findCodexSessionForPath.
    destruct (cachedCodexSessionPath fs now _ _ _) as [[cached ok] sc].
    cbn [fst snd] in Hmiss. subst ok.
    destruct (foldl _ _ _) as [[bestPath bm] cc]. by exists bestPath, sc, cc. }
  clearbody r. subst r. cbn [fst snd codexSessionCache codexSessionCwdCache].
  set (c1 := <[key:=_]> sc).
  assert (Hc1 : c1 !! key = Some (mkSessionCacheEntry bestPath (now + codexSessionCacheTTL)))
    by (unfold c1; by rewrite lookup_insert_eq).
  split.
  - intros Hnow Hp. unfold findCodexSessionForPath, cachedCodexSessionPath.
    cbn [codexSessionCache codexSessionCwdCache]. fold key. rewrite Hc1.
    cbn [expiresAt sessionPath].
    destruct (Z.ltb_spec (now + codexSessionCacheTTL) now'); [lia|].
    destruct (String.eqb_spec bestPath "") as [->|Hne]; [done|].
    destruct Hp as [?|[info Hinfo]]; [done|]. by rewrite Hinfo.
  - intros Hgone.
    assert (cachedCodexSessionPath fs' now' sessionsDir worktreePath c1
            = (("", false), delete key c1)) as Hmiss1.
    { unfold cachedCodexSessionPath. fold key. rewrite Hc1. cbn [expiresAt sessionPath].
      destruct (Z.ltb_spec (now + codexSessionCacheTTL) now'); [done|].
      destruct Hgone as [?|[Hne Hstat]]; [lia|].
      apply String.eqb_neq in Hne. by rewrite Hne, Hstat. }
    assert (cachedCodexSessionPath fs' now' sessionsDir worktreePath (delete key c1)
            = (("", false), delete key c1)) as Hmiss2.
    { unfold cachedCodexSessionPath. fold key. by rewrite lookup_delete_eq. }
    unfold findCodexSessionForPath. cbn [codexSessionCache codexSessionCwdCache].
    by rewrite Hmiss1, Hmiss2.
Qed.

Lemma X23_codex_locator_repeats_its_answer_for_five_seconds_witness :
  findCodexSessionForPath sampleLib (sampleFS []) (sampleNow + Second) codexDir "/w"
    (findCodexSessionForPath sampleLib (sampleFS []) sampleNow codexDir "/w" noCaches).2
  = findCodexSessionForPath sampleLib (sampleFS []) sampleNow codexDir "/w" noCaches.
Proof.
  apply (proj1 (X23_codex_locator_repeats_its_answer_for_five_seconds sampleLib
                  (sampleFS []) (sampleFS []) sampleNow (sampleNow + Second)
                  codexDir "/w" noCaches ltac:(reflexivity))).
  - unfold codexSessionCacheTTL, Second, Millisecond. lia.
  - left. reflexivity.
Defined.

Lemma prune_small c :
  (size c ≤ codexCwdCacheMaxEntries)%nat → pruneCodexSessionCWDCacheLocked c = c.
Proof. intros H. unfold pruneCodexSessionCWDCacheLocked. by rewrite decide_True. Qed.

(** X24. The working directory of a Codex session file is read once.  When
    [getCodexSessionCWD] has returned a non-empty directory for a file and
    the cache is below its capacity, a later call for the same file with
    unchanged size and modification time returns the same directory from the
    cache, whatever the file system holds by then, and stamps the entry with
    the time of that call. *)
Theorem X24_session_cwd_is_read_once
    (lib : Library) (fs fs' : FS) (now now' : Time) (path : string) (info : FileInfo)
    (c c1 : gmap string codexSessionCwdCacheEntry) (dir : string) :
  (size c < codexCwdCacheMaxEntries)%nat →
  getCodexSessionCWD lib fs now path info c = (Some dir, c1) →
  dir ≠ "" →
  ∃ c2, getCodexSessionCWD lib fs' now' path info c1 = (Some dir, c2) ∧
        c2 !! path = Some (mkCwdCacheEntry dir (ModTime info) (Size info) now').
Proof.
  intros Hsize Hget Hdir.
  assert (Hhit : c1 !! path = Some (mkCwdCacheEntry dir (ModTime info) (Size info) now)).
  { unfold getCodexSessionCWD, cachedCodexSessionCWD in Hget.
    destruct (c !! path) as [entry|] eqn:E.
    - destruct ((size_ entry =? Size info) && (modTime entry =? ModTime info)) eqn:Eq.
      + apply andb_true_iff in Eq as [Hs%Z.eqb_eq Hm%Z.eqb_eq].
        inversion Hget; subst. by rewrite lookup_insert_eq, Hs, Hm.
      + destruct (ReadAll fs path) as [data|]; [|done].
        destruct (firstSessionMeta lib _) as [d|]; [|by inversion Hget].
        inversion Hget; subst. unfold setCodexSessionCWDCache.
        rewrite prune_small; [by rewrite lookup_insert_eq|].
        rewrite map_size_insert_None by apply lookup_delete_eq.
        rewrite map_size_delete_Some by done. lia.
    - destruct (ReadAll fs path) as [data|]; [|done].
      destruct (firstSessionMeta lib _) as [d|]; [|by inversion Hget].
      inversion Hget; subst. unfold setCodexSessionCWDCache.
      rewrite prune_small; [by rewrite lookup_insert_eq|].
      rewrite map_size_insert_None by done. lia. }
  unfold getCodexSessionCWD, cachedCodexSessionCWD. rewrite Hhit.
  cbn [size_ modTime cwd]. rewrite !Z.eqb_refl. cbn [andb].
  eexists. split; [done|]. by rewrite lookup_insert_eq.
Qed.

Lemma X24_session_cwd_is_read_once_witness :
  ∃ c2, getCodexSessionCWD sampleLib (sampleFS []) (sampleNow + Second)
          (codexDir +:+ "/rollout-1.jsonl") (mkFileInfo (ago (2 * Second)) 18)
          {[ codexDir +:+ "/rollout-1.jsonl" :=
               mkCwdCacheEntry "/w" (ago (2 * Second)) 18 sampleNow ]}
        = (Some "/w", c2) ∧
        c2 !! (codexDir +:+ "/rollout-1.jsonl")
        = Some (mkCwdCacheEntry "/w" (ModTime (mkFileInfo (ago (2 * Second)) 18))
                  (Size (mkFileInfo (ago (2 * Second)) 18)) (sampleNow + Second)).
Proof.
  apply (X24_session_cwd_is_read_once sampleLib freshCodex (sampleFS []) sampleNow
           (sampleNow + Second) (codexDir +:+ "/rollout-1.jsonl")
           (mkFileInfo (ago (2 * Second)) 18) ∅
           {[ codexDir +:+ "/rollout-1.jsonl" :=
                mkCwdCacheEntry "/w" (ago (2 * Second)) 18 sampleNow ]} "/w").
  - rewrite map_size_empty. unfold codexCwdCacheMaxEntries. lia.
  - vm_compute. reflexivity.
  - done.
Defined.

Lemma insertByAccess_perm x l : insertByAccess x l ≡ₚ x :: l.
Proof.
  induction l as [|y l IH]; simpl; [done|].
  case_match; [done|]. rewrite IH. apply Permutation_swap.
Qed.

Lemma insertByAccess_sorted (x : string * Time) l :
  StronglySorted (λ a b : string * Time, a.2 ≤ b.2) l →
  StronglySorted (λ a b : string * Time, a.2 ≤ b.2) (insertByAccess x l).
Proof.
  induction 1 as [|y l Hs IH Hall]; simpl.
  - constructor; [constructor|constructor].
  - destruct (Z.ltb_spec x.2 y.2).
    + constructor; [by constructor|].
      constructor; [lia|]. eapply Forall_impl; [exact Hall|]. simpl. intros; lia.
    + constructor; [done|].
      rewrite insertByAccess_perm. constructor; [lia|done].
Qed.

Lemma sortByAccess_perm l : foldr insertByAccess [] l ≡ₚ l.
Proof.
  induction l as [|x l IH]; simpl; [done|]. by rewrite insertByAccess_perm, IH.
Qed.

Lemma sortByAccess_sorted l :
  StronglySorted (λ a b : string * Time, a.2 ≤ b.2) (foldr insertByAccess [] l).
Proof.
  induction l as [|x l IH]; simpl; [constructor|]. by apply insertByAccess_sorted.
Qed.

Lemma foldl_delete_lookup {A} (l : list (string * Time)) : ∀ (c : gmap string A) k,
  foldl (λ c e, delete e.1 c) c l !! k = if decide (k ∈ l.*1) then None else c !! k.
Proof.
  induction l as [|[k0 t] l IH]; intros c k.
  { cbn. destruct (decide _) as [H|]; [by apply elem_of_nil in H|done]. }
  cbn [foldl fst]. rewrite IH, fmap_cons. cbn [fst].
  destruct (decide (k ∈ l.*1)) as [Hin|Hnin].
  - destruct (decide _) as [|Hn]; [done|]. exfalso. apply Hn. by right.
  - destruct (decide (k = k0)) as [->|Hne].
    + rewrite lookup_delete_eq. destruct (decide _) as [|Hn]; [done|].
      exfalso. apply Hn. by left.
    + rewrite lookup_delete_ne by done.
      destruct (decide _) as [[?|?]%elem_of_cons|]; done.
Qed.

Lemma foldl_delete_size {A} (l : list (string * Time)) : ∀ (c : gmap string A),
  NoDup l.*1 → (∀ k, k ∈ l.*1 → is_Some (c !! k)) →
  size (foldl (λ c e, delete e.1 c) c l) = (size c - length l)%nat.
Proof.
  induction l as [|[k0 t] l IH]; intros c Hnd Hin; [cbn; lia|].
  rewrite fmap_cons in Hnd, Hin. cbn [fst] in *. apply NoDup_cons in Hnd as [Hk Hnd].
  cbn [foldl fst length]. rewrite IH; [|done|].
  - rewrite map_size_delete_Some by (apply Hin; by left). lia.
  - intros k Hkin. rewrite lookup_delete_ne; [apply Hin; by right|].
    intros ->. done.
Qed.

Lemma prune_spec (c : gmap string codexSessionCwdCacheEntry) :
  let c' := pruneCodexSessionCWDCacheLocked c in
  size c' = Nat.min (size c) codexCwdCacheMaxEntries ∧
  c' ⊆ c ∧
  (∀ k e k' e', c !! k = Some e → c' !! k = None → c' !! k' = Some e' →
                lastAccess e ≤ lastAccess e').
Proof.
  intros c'. subst c'. unfold pruneCodexSessionCWDCacheLocked.
  case_decide as Hsz.
  { split_and!; [lia|done|]. intros k e k' e' Hk Hk'. congruence. }
  set (raw := (λ kv : string * codexSessionCwdCacheEntry, (kv.1, lastAccess kv.2))
                <$> map_to_list c).
  set (entries := foldr insertByAccess [] raw).
  set (excess := (size c - codexCwdCacheMaxEntries)%nat).
  assert (Hperm : entries ≡ₚ raw) by apply sortByAccess_perm.
  assert (Hsorted : StronglySorted (λ a b : string * Time, a.2 ≤ b.2) entries)
    by apply sortByAccess_sorted.
  assert (Hkeys : raw.*1 = (map_to_list c).*1).
  { unfold raw. rewrite <- list_fmap_compose. by apply list_fmap_ext. }
  assert (Hnd : NoDup entries.*1).
  { rewrite Hperm, Hkeys. apply NoDup_fst_map_to_list. }
  assert (Hmem : ∀ k t, (k, t) ∈ entries ↔ ∃ e, c !! k = Some e ∧ t = lastAccess e).
  { intros k t. rewrite Hperm. unfold raw. rewrite list_elem_of_fmap. split.
    - intros ([k0 e] & [= -> ->] & Hin%elem_of_map_to_list). by exists e.
    - intros (e & He & ->). exists (k, e). split; [done|]. by apply elem_of_map_to_list. }
  assert (Hlen : length entries = size c).
  { rewrite Hperm. unfold raw. by rewrite length_fmap, length_map_to_list. }
  assert (Hsplit : entries = take excess entries ++ drop excess entries)
    by (by rewrite take_drop).
  split_and!.
  - rewrite foldl_delete_size.
    + rewrite length_take, Hlen. lia.
    + eapply sublist_NoDup; [exact Hnd|]. apply fmap_sublist, sublist_take.
    + intros k (kt & -> & Hin)%list_elem_of_fmap. destruct kt as [k t].
      apply elem_of_take in Hin as (i & Hin & _). apply list_elem_of_lookup_2 in Hin.
      apply Hmem in Hin as (e & He & _). by exists e.
  - apply map_subseteq_spec. intros k e. rewrite foldl_delete_lookup.
    by destruct (decide _).
  - intros k e k' e' Hk Hgone Hkept.
    rewrite foldl_delete_lookup in Hgone, Hkept.
    destruct (decide (k ∈ (take excess entries).*1)) as [Hin|]; [|congruence].
    destruct (decide (k' ∈ (take excess entries).*1)) as [|Hnin]; [done|].
    apply list_elem_of_fmap in Hin as ([k0 t] & -> & Hin). cbn [fst] in *.
    assert ((k0, t) ∈ entries) as Hin0 by (rewrite Hsplit; apply elem_of_app; by left).
    apply Hmem in Hin0 as (e0 & He0 & ->). rewrite Hk in He0. inversion He0; subst e0.
    assert ((k', lastAccess e') ∈ entries) as Hin1 by (apply Hmem; by exists e').
    rewrite Hsplit in Hin1. apply elem_of_app in Hin1 as [Hin1|Hin1].
    { exfalso. apply Hnin. apply list_elem_of_fmap. by exists (k', lastAccess e'). }
    rewrite Hsplit in Hsorted.
    apply (StronglySorted_app_1_elem_of _ _ _ _ _ Hsorted Hin Hin1).
Qed.

(** X25. The pruning of the working-directory cache evicts least recently
    used entries down to the capacity.  The cache it leaves is a part of the
    cache it was given, has [min (size, 2048)] entries, and no evicted entry
    was accessed more recently than an entry that stays. *)
Theorem X25_prune_evicts_least_recently_used
    (c : gmap string codexSessionCwdCacheEntry) :
  let c' := pruneCodexSessionCWDCacheLocked c in
  size c' = Nat.min (size c) codexCwdCacheMaxEntries ∧
  c' ⊆ c ∧
  (∀ k e k' e', c !! k = Some e → c' !! k = None → c' !! k' = Some e' →
                lastAccess e ≤ lastAccess e').
Proof. apply prune_spec. Qed.

Section CacheBound.
Variable lib : Library.

Lemma cachedCodexSessionCWD_bounded now path info c :
  (size c ≤ codexCwdCacheMaxEntries)%nat →
  (size (cachedCodexSessionCWD now path info c).2 ≤ codexCwdCacheMaxEntries)%nat.
Proof.
  intros Hc. unfold cachedCodexSessionCWD.
  destruct (c !! path) as [entry|] eqn:E; [|done].
  destruct (_ && _); cbn [snd].
  - by rewrite map_size_insert_Some.
  - rewrite map_size_delete_Some by done. lia.
Qed.

Lemma setCodexSessionCWDCache_bounded now path info dir c :
  (size (setCodexSessionCWDCache now path info dir c) ≤ codexCwdCacheMaxEntries)%nat.
Proof.
  unfold setCodexSessionCWDCache.
  destruct (prune_spec (<[path:=mkCwdCacheEntry dir (ModTime info) (Size info) now]> c))
    as (-> & _). lia.
Qed.

Lemma getCodexSessionCWD_bounded fs now path info c :
  (size c ≤ codexCwdCacheMaxEntries)%nat →
  (size (getCodexSessionCWD lib fs now path info c).2 ≤ codexCwdCacheMaxEntries)%nat.
Proof.
  intros Hc. unfold getCodexSessionCWD.
  pose proof (cachedCodexSessionCWD_bounded now path info c Hc) as Hc'.
  destruct (cachedCodexSessionCWD now path info c) as [[cached []] c']; cbn [snd] in *;
    [done|].
  destruct (ReadAll fs path); [|done].
  destruct (firstSessionMeta lib _); [|done].
  apply setCodexSessionCWDCache_bounded.
Qed.

Lemma codexVisit_bounded fs now worktreePath acc visited :
  (size acc.2 ≤ codexCwdCacheMaxEntries)%nat →
  (size (codexVisit lib fs now worktreePath acc visited).2 ≤ codexCwdCacheMaxEntries)%nat.
Proof.
  destruct acc as [[bestPath bm] c], visited as [path d]. cbn [snd]. intros Hc.
  unfold codexVisit.
  destruct (IsDir d); [done|]. destruct (negb _); [done|].
  destruct (Info d) as [info|]; [|done].
  pose proof (getCodexSessionCWD_bounded fs now path info c Hc) as Hc'.
  destruct (getCodexSessionCWD lib fs now path info c) as [[dir|] c']; cbn [snd] in *;
    [|done].
  destruct (negb _); [done|]. by destruct (_ <? _).
Qed.

Lemma codexWalk_bounded fs now worktreePath visits : ∀ acc,
  (size acc.2 ≤ codexCwdCacheMaxEntries)%nat →
  (size (foldl (codexVisit lib fs now worktreePath) acc visits).2 ≤ codexCwdCacheMaxEntries)%nat.
Proof.
  induction visits as [|v visits IH]; intros acc Hc; [done|].
  cbn [foldl]. by apply IH, codexVisit_bounded.
Qed.

Lemma findCodexSessionForPath_bounded fs now sessionsDir worktreePath cs :
  (size (codexSessionCwdCache cs) ≤ codexCwdCacheMaxEntries)%nat →
  (size (codexSessionCwdCache
             (findCodexSessionForPath lib fs now sessionsDir worktreePath cs).2) ≤ codexCwdCacheMaxEntries)%nat.
Proof.
  intros Hc. unfold findCodexSessionForPath.
  destruct (cachedCodexSessionPath fs now _ _ _) as [[cached []] sc]; [done|].
  pose proof (codexWalk_bounded fs now worktreePath (WalkDir fs sessionsDir)
                ("", 0, codexSessionCwdCache cs) Hc) as Hw.
  by destruct (foldl _ _ _) as [[bestPath bm] cc].
Qed.

(** X26. The working-directory cache stays within its capacity: a cache of
    at most [codexCwdCacheMaxEntries] (2048) entries has at most that many
    after any call of the Codex classifier, however many session files the
    walk visits. *)
Theorem X26_cwd_cache_stays_within_capacity
    (fs : FS) (now : Time) (worktreePath : string) (cs : Caches) :
  (size (codexSessionCwdCache cs) ≤ codexCwdCacheMaxEntries)%nat →
  (size (codexSessionCwdCache (detectCodexSessionStatus lib fs now worktreePath cs).2)
   ≤ codexCwdCacheMaxEntries)%nat.
Proof.
  intros Hc. unfold detectCodexSessionStatus.
  destruct (UserHomeDir fs) as [home|]; [|done].
  destruct (Abs fs worktreePath) as [absPath|]; [|done].
  pose proof (findCodexSessionForPath_bounded fs now
                (Join lib [home; ".codex"; "sessions"]) absPath cs Hc) as Hf.
  destruct (findCodexSessionForPath _ _ _ _ _ _) as [sessionFile cs'].
  cbn [snd] in Hf. destruct (String.eqb _ _); [done|]. by destruct (isFileRecentlyModified _ _ _ _).
Qed.

End CacheBound.

Lemma X26_cwd_cache_stays_within_capacity_witness :
  (size (codexSessionCwdCache
           (detectCodexSessionStatus sampleLib freshCodex sampleNow "/w" noCaches).2)
   ≤ codexCwdCacheMaxEntries)%nat.
Proof.
  apply (X26_cwd_cache_stays_within_capacity sampleLib freshCodex sampleNow "/w" noCaches).
  cbn [codexSessionCwdCache noCaches]. rewrite map_size_empty. lia.
Defined.

End WorkspaceInvariants.
